(** * Histogram equalisation on an OpenCL device (Tutorial 2)

    The host program [Tutorial 2.cpp] loads an 8-bit image, asks for a bin
    count and runs four kernels of [kernels/my_kernels.cl] one after the
    other: [int_hist], [cum_hist], [norm_hist] and [back_project].

    The host program is embedded from its source.  The kernel file
    [kernels/my_kernels.cl] is missing; the four kernels are modelled from
    the specification and from the header comment of the host program. *)

From Stdlib Require Import ZArith Lia.
From stdpp Require Import base tactics option list strings.

(* ===================================================================== *)
(** * Machine integers *)
(* ===================================================================== *)

Module Int.
Local Open Scope Z_scope.

Definition INT_MAX : Z := 2 ^ 31 - 1.
Definition INT_MIN : Z := - 2 ^ 31.

(** Two's complement wrap-around of [int]. *)
Definition int_wrap (z : Z) : Z := (z + 2 ^ 31) mod 2 ^ 32 - 2 ^ 31.

Definition int_add (a b : Z) : Z := int_wrap (a + b).

(** [a / b] on [int]: truncation towards zero; a zero divisor is
    undefined. *)
Definition int_div (a b : Z) : option Z :=
  if decide (b = 0) then None else Some (int_wrap (Z.quot a b)).

(** Conversion to [unsigned char]. *)
Definition uchar_wrap (z : Z) : Z := z mod 256.

(** Arithmetic of [cl_ulong]. *)
Definition ulong_wrap (z : Z) : Z := z mod 2 ^ 64.
Definition ulong_add (a b : Z) : Z := ulong_wrap (a + b).
Definition ulong_sub (a b : Z) : Z := ulong_wrap (a - b).

Definition is_int (z : Z) : Prop := INT_MIN ≤ z ≤ INT_MAX.
Definition is_uchar (z : Z) : Prop := 0 ≤ z < 256.

Definition sizeof_int : nat := 4.
Definition sizeof_size_t : nat := 8.

End Int.
Import Int.

(* ===================================================================== *)
(** * Device execution *)
(* ===================================================================== *)

Module Device.

(** A write through a pointer into a buffer; outside the buffer the
    behaviour is undefined, which is [None] here. *)
Definition store (i : nat) (v : Z) (buf : list Z) : option (list Z) :=
  guard (i < length buf);; Some (<[i := v]> buf).

(** The work-items of one dispatch (or of one barrier-delimited phase of
    it) run in some order [sched]; each transforms the memory it writes. *)
Fixpoint run_items {S : Type} (item : nat → S → option S)
    (sched : list nat) (s : S) : option S :=
  match sched with
  | [] => Some s
  | id :: sched => s' ← item id s; run_items item sched s'
  end.

(** A schedule of a dispatch over [n] work-items runs each of them once. *)
Definition schedule_of (n : nat) (sched : list nat) : Prop :=
  sched ≡ₚ seq 0 n.

End Device.
Import Device.

(* ===================================================================== *)
(** * The kernels *)
(* ===================================================================== *)

Module Kernels.

(** Modelled from the spec: the kernel [int_hist] of
    [kernels/my_kernels.cl], which is missing.  One work-item per pixel
    reads its pixel's intensity and atomically increments
    [H[intensity]]. *)
Definition int_hist (A : list Z) (id : nat) (H : list Z) : option (list Z) :=
  pixel ← A !! id;
  let bin_index := Z.to_nat pixel in
  guard (bin_index < length H);;
  Some (alter (λ count, int_add count 1) bin_index H).

(** Modelled from the spec: the kernel [cum_hist] of
    [kernels/my_kernels.cl], which is missing.  A double-buffered
    Hillis-Steele inclusive scan over the two local buffers the host
    passes: the work-group caches its slice of [A] in [scratch_1]; at
    step [s], with stride [d = 2^s], position [lid >= d] of [scratch_2]
    receives [scratch_1[lid] + scratch_1[lid - d]] and position
    [lid < d] a copy of [scratch_1[lid]]; a barrier ends the step and
    the two buffers are swapped; after [ceil(log2 N)] steps the current
    buffer is copied to [B]. *)
Section cum_hist.
Variable A : list Z.
Variable group : nat.    (* get_group_id(0) *)
Variable N : nat.        (* get_local_size(0) *)

Definition cum_hist_cache (lid : nat) (scratch_1 : list Z)
    : option (list Z) :=
  x ← A !! (group * N + lid);
  store lid x scratch_1.

Definition cum_hist_step (d : nat) (scratch_1 : list Z) (lid : nat)
    (scratch_2 : list Z) : option (list Z) :=
  x ← scratch_1 !! lid;
  v ← (if decide (d ≤ lid)
       then y ← scratch_1 !! (lid - d); Some (int_add x y)
       else Some x);
  store lid v scratch_2.

Definition cum_hist_copy (scratch_1 : list Z) (lid : nat) (B : list Z)
    : option (list Z) :=
  x ← scratch_1 !! lid;
  store (group * N + lid) x B.

(** [sched k] is the order of the work-items of the group in phase [k]:
    phase [0] caches, phase [s + 1] is scan step [s], and the last
    phase copies out. *)
Fixpoint cum_hist_loop (sched : nat → list nat) (steps : list nat)
    (scratch_1 scratch_2 : list Z) : option (list Z * list Z) :=
  match steps with
  | [] => Some (scratch_1, scratch_2)
  | s :: steps =>
      scratch_2 ← run_items (cum_hist_step (2 ^ s) scratch_1)
                            (sched (S s)) scratch_2;
      cum_hist_loop sched steps scratch_2 scratch_1
  end.

Definition cum_hist_steps : nat := Nat.log2_up N.

Definition cum_hist (sched : nat → list nat)
    (scratch_1 scratch_2 : list Z) (B : list Z) : option (list Z) :=
  scratch_1 ← run_items cum_hist_cache (sched 0) scratch_1;
  '(scratch_1, _) ← cum_hist_loop sched (seq 0 cum_hist_steps)
                                  scratch_1 scratch_2;
  run_items (cum_hist_copy scratch_1) (sched (S cum_hist_steps)) B.
End cum_hist.

Definition clamp (lo hi z : Z) : Z := Z.max lo (Z.min hi z).

(** Modelled from the spec: the kernel [norm_hist] of
    [kernels/my_kernels.cl], which is missing.  Each element of the
    cumulative histogram is divided by the image size divided by the
    bin count, in integer arithmetic, and clamped to [0, 255]. *)
Definition norm_hist (A : list Z) (image_size bin_count : Z)
    (id : nat) (B : list Z) : option (list Z) :=
  x ← A !! id;
  divisor ← int_div image_size bin_count;
  q ← int_div x divisor;
  store id (clamp 0 255 q) B.

(** Modelled from the spec: the kernel [back_project] of
    [kernels/my_kernels.cl], which is missing.  Each pixel of the input
    indexes the look-up table; the entry becomes the output pixel. *)
Definition back_project (A LUT : list Z) (id : nat) (B : list Z)
    : option (list Z) :=
  pixel ← A !! id;
  v ← LUT !! Z.to_nat pixel;
  store id (uchar_wrap v) B.

End Kernels.
Import Kernels.

(* ===================================================================== *)
(** * The host program: data path *)
(* ===================================================================== *)

Module Host.

(** [CImg<unsigned char>]: the four dimensions and the flat pixel
    buffer. *)
Record CImg : Type := mkCImg {
  width : nat;
  height : nat;
  depth : nat;
  spectrum : nat;
  data : list Z
}.

Definition size (img : CImg) : nat :=
  width img * height img * depth img * spectrum img.

(** The invariant of the class: the buffer holds [size] samples, each an
    [unsigned char]. *)
Definition CImg_wf (img : CImg) : Prop :=
  length (data img) = size img ∧ Forall is_uchar (data img).

(** The five device buffers of [main]. *)
Record DeviceMemory : Type := mkDeviceMemory {
  dev_image_input : list Z;
  dev_image_output : list Z;
  int_histogram : list Z;
  cum_histogram : list Z;
  norm_histogram : list Z
}.

(** [int_hist_size], [cum_hist_size] and [norm_hist_size] (lines 96, 130,
    144): the byte size of a host vector of [bin_count] ints. *)
Definition hist_size (bin_count : nat) : nat := bin_count * sizeof_int.

(** The byte size the three histogram buffers are created with (lines
    102-104): [int_hist_size * sizeof(int)]. *)
Definition hist_buffer_bytes (bin_count : nat) : nat :=
  hist_size bin_count * sizeof_int.

Definition hist_buffer_ints (bin_count : nat) : nat :=
  hist_buffer_bytes bin_count / sizeof_int.

(** The ints of a [cl::Local] argument of [local_size * sizeof(size_t)]
    bytes (lines 135-136). *)
Definition local_ints (local_size : nat) : nat :=
  local_size * sizeof_size_t / sizeof_int.

(** Memory as [main] finds it after creating its buffers (lines 100-104):
    of the sizes asked for, with whatever contents the device hands out;
    [main] writes the image to [dev_image_input] and nothing to the other
    four before the first dispatch. *)
Definition created (N bin_count : nat) (m : DeviceMemory) : Prop :=
  length (dev_image_input m) = N ∧
  length (dev_image_output m) = N ∧
  length (int_histogram m) = hist_buffer_ints bin_count ∧
  length (cum_histogram m) = hist_buffer_ints bin_count ∧
  length (norm_histogram m) = hist_buffer_ints bin_count.

(** The bins are initialised at zero, as [int_hist] assumes (header
    comment, lines 3-5). *)
Definition zeroed (m : DeviceMemory) : Prop :=
  Forall (λ c, c = 0%Z) (int_histogram m).

(** What the device is free to choose in a run: the order of the
    work-items of every dispatch (per work-group and phase for
    [cum_hist]) and the contents of local memory when a work-group
    starts. *)
Record Execution : Type := mkExecution {
  sched_int_hist : list nat;
  sched_cum_hist : nat → nat → list nat;
  local_1 : nat → list Z;
  local_2 : nat → list Z;
  sched_norm_hist : list nat;
  sched_back_project : list nat
}.

Definition execution_of (N bin_count : nat) (ex : Execution) : Prop :=
  schedule_of N (sched_int_hist ex) ∧
  (∀ group phase, schedule_of bin_count (sched_cum_hist ex group phase)) ∧
  (∀ group, length (local_1 ex group) = local_ints bin_count) ∧
  (∀ group, length (local_2 ex group) = local_ints bin_count) ∧
  schedule_of (hist_size bin_count) (sched_norm_hist ex) ∧
  schedule_of N (sched_back_project ex).

(** [enqueueWriteBuffer] and [enqueueReadBuffer] of [n] elements from
    offset 0. *)
Definition write_buffer (n : nat) (src buf : list Z) : option (list Z) :=
  guard (n ≤ length src ∧ n ≤ length buf);;
  Some (take n src ++ drop n buf).

Definition read_buffer (n : nat) (buf : list Z) : option (list Z) :=
  guard (n ≤ length buf);; Some (take n buf).

Section stages.
Variable image_input : CImg.
Variable bin_count : nat.      (* H.size() *)
Variable ex : Execution.

Let local_size : nat := bin_count.

(** 4.1 (lines 112-115): the image is copied to [dev_image_input], four
    times over. *)
Definition upload (m : DeviceMemory) : option DeviceMemory :=
  input ← write_buffer (size image_input) (data image_input)
                       (dev_image_input m);
  input ← write_buffer (size image_input) (data image_input) input;
  input ← write_buffer (size image_input) (data image_input) input;
  input ← write_buffer (size image_input) (data image_input) input;
  Some (mkDeviceMemory input (dev_image_output m) (int_histogram m)
                       (cum_histogram m) (norm_histogram m)).

(** Lines 119-125: [int_hist] over [image_input.size()] work-items, then
    the read of [int_hist_size] bytes into [int_histogram_buffer]. *)
Definition stage_int_hist (m : DeviceMemory)
    : option (DeviceMemory * list Z) :=
  H ← run_items (int_hist (dev_image_input m)) (sched_int_hist ex)
                (int_histogram m);
  int_histogram_buffer ← read_buffer (hist_size bin_count / sizeof_int) H;
  Some (mkDeviceMemory (dev_image_input m) (dev_image_output m) H
                       (cum_histogram m) (norm_histogram m),
        int_histogram_buffer).

(** Lines 132-139: [cum_hist] over [cum_hist_size] work-items in groups
    of [local_size], each group with its two local buffers, then the read
    of [cum_hist_size] bytes. *)
Definition stage_cum_hist (m : DeviceMemory)
    : option (DeviceMemory * list Z) :=
  B ← run_items
        (λ group, cum_hist (int_histogram m) group local_size
                           (sched_cum_hist ex group)
                           (local_1 ex group) (local_2 ex group))
        (seq 0 (hist_size bin_count / local_size))
        (cum_histogram m);
  cum_histogram_buffer ← read_buffer (hist_size bin_count / sizeof_int) B;
  Some (mkDeviceMemory (dev_image_input m) (dev_image_output m)
                       (int_histogram m) B (norm_histogram m),
        cum_histogram_buffer).

(** Lines 146-153: [norm_hist] over [norm_hist_size] work-items with the
    arguments [int(image_input.size())] and [int(H.size())], then the
    read. *)
Definition stage_norm_hist (m : DeviceMemory)
    : option (DeviceMemory * list Z) :=
  B ← run_items
        (norm_hist (cum_histogram m)
                   (int_wrap (Z.of_nat (size image_input)))
                   (int_wrap (Z.of_nat bin_count)))
        (sched_norm_hist ex) (norm_histogram m);
  norm_histogram_buffer ← read_buffer (hist_size bin_count / sizeof_int) B;
  Some (mkDeviceMemory (dev_image_input m) (dev_image_output m)
                       (int_histogram m) (cum_histogram m) B,
        norm_histogram_buffer).

(** Lines 159-165: [back_project] over [image_input.size()] work-items,
    then the read of the whole output. *)
Definition stage_back_project (m : DeviceMemory)
    : option (DeviceMemory * list Z) :=
  B ← run_items (back_project (dev_image_input m) (norm_histogram m))
                (sched_back_project ex) (dev_image_output m);
  output_buffer ← read_buffer (size image_input) B;
  Some (mkDeviceMemory (dev_image_input m) B (int_histogram m)
                       (cum_histogram m) (norm_histogram m),
        output_buffer).

(** The host vectors at the end of the run, and the image built from
    [output_buffer] with the dimensions of the input (line 167). *)
Record Buffers : Type := mkBuffers {
  int_histogram_buffer : list Z;
  cum_histogram_buffer : list Z;
  norm_histogram_buffer : list Z;
  output_buffer : list Z
}.

Definition output_image (output_buffer : list Z) : CImg :=
  mkCImg (width image_input) (height image_input) (depth image_input)
         (spectrum image_input) output_buffer.

Definition pipeline (m : DeviceMemory) : option (DeviceMemory * Buffers) :=
  m ← upload m;
  '(m, int_histogram_buffer) ← stage_int_hist m;
  '(m, cum_histogram_buffer) ← stage_cum_hist m;
  '(m, norm_histogram_buffer) ← stage_norm_hist m;
  '(m, output_buffer) ← stage_back_project m;
  Some (m, mkBuffers int_histogram_buffer cum_histogram_buffer
                     norm_histogram_buffer output_buffer).
End stages.

End Host.
Import Host.

(* ===================================================================== *)
(** * Sequential readings of the kernels *)
(* ===================================================================== *)

(** The functions below say what a dispatch computes without reference to
    the order of its work-items; the lemmas further down relate them to
    the scheduled executions above. *)

Module Reference.

(** The shape of a work-item that computes a value from read-only data
    and writes it at its own index, [off] places into the buffer. *)
Definition writer (off : nat) (f : nat → option Z) (lid : nat)
    (buf : list Z) : option (list Z) :=
  v ← f lid; store (off + lid) v buf.

(** A whole dispatch of such work-items over [n] indices. *)
Definition written (off n : nat) (f : nat → option Z) (buf : list Z)
    : option (list Z) :=
  if decide (Forall (λ i, is_Some (f i)) (seq 0 n))
  then Some (take off buf ++ ((λ i, default 0%Z (f i)) <$> seq 0 n)
                          ++ drop (off + n) buf)
  else None.

Definition sum_Z (l : list Z) : Z := foldr Z.add 0%Z l.

(** [sum(l[0..k-1])]. *)
Definition psum (l : list Z) (k : nat) : Z := sum_Z (take k l).

Definition non_decreasing (l : list Z) : Prop :=
  ∀ i j x y, i ≤ j → l !! i = Some x → l !! j = Some y → (x ≤ y)%Z.

(** The number of pixels with intensity [v]. *)
Definition count (v : nat) (pixels : list Z) : nat :=
  length (filter (λ p, Z.to_nat p = v) pixels).

(** [k] atomic increments of a counter. *)
Definition incremented (k : nat) (c : Z) : Z :=
  Nat.iter k (λ c, int_add c 1) c.

(** The histogram after all pixels have been counted into it. *)
Definition counted (pixels : list Z) (H : list Z) : option (list Z) :=
  if decide (Forall (λ p, Z.to_nat p < length H) pixels)
  then Some (imap (λ v c, incremented (count v pixels) c) H)
  else None.

(** One Hillis-Steele step with stride [d] and the scan of a slice. *)
Definition hs_step (d : nat) (cur : list Z) : list Z :=
  imap (λ i x, if decide (d ≤ i) then int_add x (cur !!! (i - d)) else x) cur.

Definition hs_scan (xs : list Z) : list Z :=
  foldl (λ cur s, hs_step (2 ^ s) cur) xs (seq 0 (Nat.log2_up (length xs))).

(** After the steps with strides [1, 2, ..., d/2] every cell holds the sum
    of the [d] entries ending at it. *)
Definition windowed (xs : list Z) (d : nat) (cur : list Z) : Prop :=
  length cur = length xs ∧
  ∀ i, i < length xs →
       cur !! i = Some (int_wrap (psum xs (S i) - psum xs (S i - d))).

(** A frequency histogram: counters that are not negative and whose total,
    the pixel count, is an [int]. *)
Definition frequency_histogram (N : nat) (hist : list Z) : Prop :=
  Forall (λ x, (0 ≤ x)%Z) hist ∧ sum_Z hist = Z.of_nat N ∧
  (Z.of_nat N ≤ INT_MAX)%Z.

(** The slice of work-group [group]. *)
Definition slice (n group : nat) (A : list Z) : list Z :=
  take n (drop (group * n) A).

Definition scan_groups (n groups : nat) (A : list Z) : list Z :=
  seq 0 groups ≫= (λ group, hs_scan (slice n group A)).

(** The values [norm_hist] and [back_project] write. *)
Definition normalised (A : list Z) (image_size bin_count : Z) (id : nat)
    : option Z :=
  x ← A !! id;
  divisor ← int_div image_size bin_count;
  q ← int_div x divisor;
  Some (clamp 0 255 q).

Definition projected (A LUT : list Z) (id : nat) : option Z :=
  pixel ← A !! id;
  v ← LUT !! Z.to_nat pixel;
  Some (uchar_wrap v).

End Reference.
Import Reference.

(* ===================================================================== *)
(** * The host program: control flow of [main] *)
(* ===================================================================== *)

Module Main.

(** The exceptions that can reach the handlers of [main]. *)
Inductive exception : Type :=
  | cl_Error (what : string) (err : Z)
  | CImgException (what : string)
  | std_exception (what : string).

(** The calls of [main] into OpenCL (directly or through [Utils.h]). *)
Inductive call : Type :=
  | GetContext
  | GetPlatformName
  | GetDeviceName
  | CommandQueue
  | Program
  | build
  | Buffer (name : string)
  | enqueueWriteBuffer (nth : nat)
  | Kernel (name : string)
  | setArg (kernel : string) (index : nat)
  | enqueueNDRangeKernel (kernel : string)
  | enqueueReadBuffer (buffer : string)
  | getProfilingInfo
  | GetFullProfilingInfo.

Global Instance call_eq_dec : EqDecision call.
Proof. solve_decision. Defined.

(** The name [err.what()] a failing call reports. *)
Definition what_of (c : call) : string :=
  match c with
  | GetContext => "clCreateContext"
  | GetPlatformName => "clGetPlatformInfo"
  | GetDeviceName => "clGetDeviceInfo"
  | CommandQueue => "clCreateCommandQueue"
  | Program => "clCreateProgramWithSource"
  | build => "clBuildProgram"
  | Buffer _ => "clCreateBuffer"
  | enqueueWriteBuffer _ => "clEnqueueWriteBuffer"
  | Kernel _ => "clCreateKernel"
  | setArg _ _ => "clSetKernelArg"
  | enqueueNDRangeKernel _ => "clEnqueueNDRangeKernel"
  | enqueueReadBuffer _ => "clEnqueueReadBuffer"
  | getProfilingInfo => "clGetEventProfilingInfo"
  | GetFullProfilingInfo => "clGetEventProfilingInfo"
  end.

Definition CL_SUCCESS : Z := 0.

(** A kernel dispatch as the device receives it. *)
Record launch : Type := mkLaunch {
  kernel : string;
  global : nat;
  local : nat;
  scalars : list Z
}.

(** What the user sees. *)
Inductive output : Type :=
  | cout (text : string)
  | cout_value (label : string) (value : Z)
  | cerr (text : string)
  | window (title : string) (image : option CImg).

(** What surrounds the program in one run: the number typed, the image
    loader, the display, the status and the profiling timestamps of every
    OpenCL call, the strings of [Utils.h], the contents the device buffers
    are created with and the choices of the device. *)
Record Environment : Type := mkEnvironment {
  cin : Z;
  load : string → string + CImg;
  display : string → option string;
  status : call → Z;
  profile : call → Z * Z;
  platform_name : string;
  device_name : string;
  build_log : string;
  getErrorString : Z → string;
  full_profiling_info : Z * Z → string;
  memory : DeviceMemory;
  execution : Execution
}.

Record World : Type := mkWorld {
  console : list output;
  dispatched : list launch;
  device : option DeviceMemory
}.

Definition M (A : Type) : Type := World → (exception + A) * World.

Definition ret {A} (a : A) : M A := λ w, (inr a, w).

Definition bind {A B} (m : M A) (f : A → M B) : M B :=
  λ w, match m w with
       | (inl e, w') => (inl e, w')
       | (inr a, w') => f a w'
       end.

Definition throw {A} (e : exception) : M A := λ w, (inl e, w).

(** [try { m } catch (const cl::Error& err) { handler err }]. *)
Definition try_catch_cl {A} (m : M A) (handler : string → Z → M A) : M A :=
  λ w, match m w with
       | (inl (cl_Error what err), w') => handler what err w'
       | r => r
       end.

Declare Scope main_scope.
Delimit Scope main_scope with main.
Notation "x <- m ; f" := (bind m (λ x, f))
  (at level 100, m at next level, right associativity,
   format "'[v' x  <-  m ;  '/' f ']'") : main_scope.
Notation "m ;; f" := (bind m (λ _, f))
  (at level 100, right associativity,
   format "'[v' m ;;  '/' f ']'") : main_scope.

Section program.
Variable env : Environment.
Variable image_filename : string.
Local Open Scope main_scope.

Definition print (o : output) : M unit :=
  λ w, (inr (), mkWorld (console w ++ [o]) (dispatched w) (device w)).

(** A call into OpenCL throws [cl::Error] unless it reports
    [CL_SUCCESS]. *)
Definition cl (c : call) : M unit :=
  if decide (status env c = CL_SUCCESS) then ret ()
  else throw (cl_Error (what_of c) (status env c)).

(** [CImg<unsigned char> image_input(filename)]. *)
Definition CImg_load (filename : string) : M CImg :=
  match load env filename with
  | inl what => throw (CImgException what)
  | inr image => ret image
  end.

(** [CImgDisplay disp(image, title)]. *)
Definition CImgDisplay (image : option CImg) (title : string) : M unit :=
  match display env title with
  | Some what => throw (CImgException what)
  | None => print (window title image)
  end.

(** [std::vector<int> H(n)]: a negative [int] converts to a size beyond
    [max_size()].  Exhaustion of host memory ([std::bad_alloc]), here and
    at the vectors of lines 95, 129, 143 and 157, is outside the model. *)
Definition vector (n : Z) : M nat :=
  if decide (n < 0)%Z then throw (std_exception "vector")
  else ret (Z.to_nat n).

(** The five [cl::Buffer] constructors; the buffers then hold what the
    device hands out. *)
Definition create_buffers : M unit :=
  cl (Buffer "dev_image_input");;
  cl (Buffer "dev_image_output");;
  cl (Buffer "int_histogram");;
  cl (Buffer "cum_histogram");;
  cl (Buffer "norm_histogram");;
  λ w, (inr (), mkWorld (console w) (dispatched w) (Some (memory env))).

(** The effect of a command on device memory; once a command has faulted
    the memory is undefined. *)
Definition on_device {A} (f : DeviceMemory → option (DeviceMemory * A))
    : M (option A) :=
  λ w, let r := device w ≫= f in
       (inr (snd <$> r), mkWorld (console w) (dispatched w) (fst <$> r)).

(** The copy of the image into [dev_image_input]. *)
Definition image_written (image_input : CImg) (m : DeviceMemory)
    : option (DeviceMemory * unit) :=
  input ← write_buffer (size image_input) (data image_input)
                       (dev_image_input m);
  Some (mkDeviceMemory input (dev_image_output m) (int_histogram m)
                       (cum_histogram m) (norm_histogram m), ()).

(** [queue.enqueueWriteBuffer(dev_image_input, ..., &event)]: the event
    of the command, its start and end timestamps, is returned and takes
    the place of what the variable held. *)
Definition write_image (image_input : CImg) (nth : nat) : M (Z * Z) :=
  cl (enqueueWriteBuffer nth);;
  on_device (image_written image_input);;
  ret (profile env (enqueueWriteBuffer nth)).

(** [queue.enqueueNDRangeKernel(kernel, NullRange, global, local, NULL,
    &event)]. *)
Definition dispatch (l : launch) : M (Z * Z) :=
  cl (enqueueNDRangeKernel (kernel l));;
  (λ w, (inr (), mkWorld (console w) (dispatched w ++ [l]) (device w)));;
  ret (profile env (enqueueNDRangeKernel (kernel l))).

Fixpoint set_args (kernel : string) (first count : nat) : M unit :=
  match count with
  | 0 => ret ()
  | S count => cl (setArg kernel first);; set_args kernel (S first) count
  end.

(** [event.getProfilingInfo<CL_PROFILING_COMMAND_END>()] and
    [..._START>()]. *)
Definition COMMAND_END (event : Z * Z) : M Z :=
  cl getProfilingInfo;; ret (snd event).
Definition COMMAND_START (event : Z * Z) : M Z :=
  cl getProfilingInfo;; ret (fst event).

(** The body of the [try] block (lines 56-183); the command line has
    been read and gives [image_filename]. *)
Definition main_try : M unit :=
  print (cout "Enter number of bins - 256 for 8-bit image");;
  let bin_count := cin env in
  image_input <- CImg_load image_filename;
  CImgDisplay (Some image_input) "input";;
  H <- vector bin_count;
  let local_size := H in
  (* Part 3 - host operations *)
  cl GetContext;;
  cl GetPlatformName;;
  cl GetDeviceName;;
  print (cout ("Runing on " +:+ platform_name env +:+ ", " +:+ device_name env));;
  cl CommandQueue;;
  cl Program;;
  try_catch_cl (cl build)
    (λ what err,
       print (cout "Build Status: ");;
       print (cout "Build Options:");;
       print (cout ("Build Log: " +:+ build_log env));;
       throw (cl_Error what err));;
  (* Part 4 - device operations *)
  create_buffers;;
  event <- write_image image_input 0;
  eventB <- write_image image_input 1;
  eventC <- write_image image_input 2;
  eventD <- write_image image_input 3;
  (* int_hist *)
  cl (Kernel "int_hist");;
  set_args "int_hist" 0 2;;
  event <- dispatch (mkLaunch "int_hist" (size image_input) local_size []);
  cl (enqueueReadBuffer "int_histogram");;
  int_histogram_buffer <-
    on_device (stage_int_hist H (execution env));
  (* cum_hist *)
  cl (Kernel "cum_hist");;
  set_args "cum_hist" 0 4;;
  event <- dispatch (mkLaunch "cum_hist" (hist_size H) local_size []);
  cl (enqueueReadBuffer "cum_histogram");;
  cum_histogram_buffer <-
    on_device (stage_cum_hist H (execution env));
  (* norm_hist *)
  cl (Kernel "norm_hist");;
  set_args "norm_hist" 0 4;;
  event <- dispatch (mkLaunch "norm_hist" (hist_size H) local_size
                       [int_wrap (Z.of_nat (size image_input));
                        int_wrap (Z.of_nat H)]);
  cl (enqueueReadBuffer "norm_histogram");;
  norm_histogram_buffer <-
    on_device (stage_norm_hist image_input H (execution env));
  (* back_project *)
  cl (Kernel "back_project");;
  set_args "back_project" 0 3;;
  event <- dispatch (mkLaunch "back_project" (size image_input) local_size []);
  cl (enqueueReadBuffer "dev_image_output");;
  output_buffer <-
    on_device (stage_back_project image_input (execution env));
  let output_image := output_image image_input <$> output_buffer in
  (* profiling *)
  e <- COMMAND_END event; s <- COMMAND_START event;
  print (cout_value "Kernel execution time [ns]:" (ulong_sub e s));;
  e1 <- COMMAND_END event; s1 <- COMMAND_START event;
  e2 <- COMMAND_END event; s2 <- COMMAND_START event;
  e3 <- COMMAND_END event; s3 <- COMMAND_START event;
  e4 <- COMMAND_END event; s4 <- COMMAND_START event;
  print (cout_value "Memory transfer:"
    (ulong_sub (ulong_add (ulong_sub (ulong_add (ulong_sub (ulong_add
       (ulong_sub e1 s1) e2) s2) e3) s3) e4) s4));;
  cl GetFullProfilingInfo;;
  print (cout (full_profiling_info env event));;
  CImgDisplay output_image "output".

(** How a run ends: the [try] block completes, one of the two handlers
    (lines 185-190) runs, or an exception leaves [main]. *)
Inductive outcome : Type :=
  | Finished
  | Caught (e : exception)
  | Uncaught (e : exception).

Definition start : World := mkWorld [] [] None.

Definition main : outcome * World :=
  match main_try start with
  | (inr _, w) => (Finished, w)
  | (inl (cl_Error what err), w) =>
      (Caught (cl_Error what err),
       mkWorld (console w ++ [cerr ("ERROR: " +:+ what +:+ ", "
                                     +:+ getErrorString env err)])
               (dispatched w) (device w))
  | (inl (CImgException what), w) =>
      (Caught (CImgException what),
       mkWorld (console w ++ [cerr ("ERROR: " +:+ what)])
               (dispatched w) (device w))
  | (inl e, w) => (Uncaught e, w)
  end.

End program.

(** The calls of a run of [main] in which none fails, in order; the first
    [calls_before_dispatch] of them precede the first kernel dispatch. *)
Definition calls : list call :=
  [GetContext; GetPlatformName; GetDeviceName; CommandQueue; Program; build;
   Buffer "dev_image_input"; Buffer "dev_image_output";
   Buffer "int_histogram"; Buffer "cum_histogram"; Buffer "norm_histogram";
   enqueueWriteBuffer 0; enqueueWriteBuffer 1; enqueueWriteBuffer 2;
   enqueueWriteBuffer 3;
   Kernel "int_hist"; setArg "int_hist" 0; setArg "int_hist" 1;
   enqueueNDRangeKernel "int_hist"; enqueueReadBuffer "int_histogram";
   Kernel "cum_hist"; setArg "cum_hist" 0; setArg "cum_hist" 1;
   setArg "cum_hist" 2; setArg "cum_hist" 3;
   enqueueNDRangeKernel "cum_hist"; enqueueReadBuffer "cum_histogram";
   Kernel "norm_hist"; setArg "norm_hist" 0; setArg "norm_hist" 1;
   setArg "norm_hist" 2; setArg "norm_hist" 3;
   enqueueNDRangeKernel "norm_hist"; enqueueReadBuffer "norm_histogram";
   Kernel "back_project"; setArg "back_project" 0; setArg "back_project" 1;
   setArg "back_project" 2;
   enqueueNDRangeKernel "back_project"; enqueueReadBuffer "dev_image_output";
   getProfilingInfo; GetFullProfilingInfo].

Definition calls_before_dispatch : list call := take 18 calls.

(** The image [pipeline] leaves to be shown, if the device memory is
    still defined. *)
Definition equalised_image (image_input : CImg) (bin_count : nat)
    (ex : Execution) (m : DeviceMemory) : option CImg :=
  (λ r, output_image image_input (output_buffer (snd r)))
    <$> pipeline image_input bin_count ex m.

(** The run shows the output image. *)
Definition shows_output (w : World) : Prop :=
  ∃ image, window "output" image ∈ console w.

(** The run prints a diagnostic. *)
Definition prints_diagnostic (w : World) : Prop :=
  ∃ text, cerr text ∈ console w ∧ String.prefix "ERROR: " text = true.

(** A stage of the run fails: the image does not load, a window cannot be
    opened, or an OpenCL call reports an error. *)
Definition stage_fails (env : Environment) (image_filename : string) : Prop :=
  (∃ what, load env image_filename = inl what) ∨
  is_Some (display env "input") ∨
  (∃ c, c ∈ calls ∧ status env c ≠ CL_SUCCESS) ∨
  is_Some (display env "output").

(** An environment in which every call succeeds. *)
Definition all_succeed (env : Environment) : Prop :=
  (∀ c, c ∈ calls → status env c = CL_SUCCESS) ∧
  display env "input" = None ∧ display env "output" = None.

End Main.
Import Main.

(* ===================================================================== *)
(** * Sequential reading of the pipeline *)
(* ===================================================================== *)

Module Sequential.

(** What a run of the four stages computes from the image, the bin count
    and the memory the buffers were created with. *)
Definition equalised (image_input : CImg) (bin_count : nat)
    (m : DeviceMemory) : option (DeviceMemory * Buffers) :=
  let N := size image_input in
  H ← counted (data image_input) (int_histogram m);
  let C := scan_groups bin_count (hist_size bin_count / bin_count) H in
  T ← written 0 (hist_size bin_count)
         (normalised C (int_wrap (Z.of_nat N)) (int_wrap (Z.of_nat bin_count)))
         (norm_histogram m);
  O ← written 0 N (projected (data image_input) T) (dev_image_output m);
  Some (mkDeviceMemory (data image_input) O H C T,
        mkBuffers (take bin_count H) (take bin_count C) (take bin_count T)
                  (take N O)).

End Sequential.
Import Sequential.

(* ===================================================================== *)
(** * The contracts of the stages *)
(* ===================================================================== *)

Module Contracts.


(** The scan: the inclusive prefix sums of the histogram, which do not
    decrease and end at the pixel count [N]. *)
Definition cum_hist_contract (bin_count N : nat) (ex : Execution)
    (m : DeviceMemory) : Prop :=
  let histogram := take bin_count (int_histogram m) in
  ∃ m' cumulative,
    stage_cum_hist bin_count ex m = Some (m', cumulative) ∧
    length cumulative = bin_count ∧
    (∀ i, i < bin_count → cumulative !! i = Some (psum histogram (S i))) ∧
    non_decreasing cumulative ∧
    (0 < bin_count → cumulative !! (bin_count - 1) = Some (Z.of_nat N)).

(** The two readings of the normalisation formula: the cumulative count
    divided by [N / B] with both divisions truncated, and
    [floor(c * B / N)]. *)
Definition by_divisor (N bin_count : nat) (c : Z) : Z :=
  Z.quot c (Z.quot (Z.of_nat N) (Z.of_nat bin_count)).

Definition by_product (N bin_count : nat) (c : Z) : Z :=
  (c * Z.of_nat bin_count / Z.of_nat N)%Z.

(** The normalisation: a table of [bin_count] entries, entry [i] being
    [formula] of the cumulative count [i] clamped to [0, 255], the table
    not decreasing. *)
Definition norm_hist_contract (formula : Z → Z) (image_input : CImg)
    (bin_count : nat) (ex : Execution) (m : DeviceMemory) : Prop :=
  let cumulative := take bin_count (cum_histogram m) in
  ∃ m' table,
    stage_norm_hist image_input bin_count ex m = Some (m', table) ∧
    length table = bin_count ∧
    (∀ i c, cumulative !! i = Some c →
            table !! i = Some (clamp 0 255 (formula c))) ∧
    Forall is_uchar table ∧
    non_decreasing table.


End Contracts.
Import Contracts.

(* ===================================================================== *)
(** * Concrete runs *)
(* ===================================================================== *)

Module Examples.

(** Work-items in the order of their ids, local buffers holding [junk]. *)
Definition in_order (N bin_count : nat) (junk : Z) : Execution :=
  mkExecution (seq 0 N) (λ _ _, seq 0 bin_count)
              (λ _, replicate (local_ints bin_count) junk)
              (λ _, replicate (local_ints bin_count) junk)
              (seq 0 (hist_size bin_count)) (seq 0 N).

(** Work-items in the reverse order. *)
Definition reversed (N bin_count : nat) (junk : Z) : Execution :=
  mkExecution (reverse (seq 0 N)) (λ _ _, reverse (seq 0 bin_count))
              (λ _, replicate (local_ints bin_count) junk)
              (λ _, replicate (local_ints bin_count) junk)
              (reverse (seq 0 (hist_size bin_count))) (reverse (seq 0 N)).

(** Freshly created buffers: zeroed bins, [junk] elsewhere. *)
Definition fresh (N bin_count : nat) (junk : Z) : DeviceMemory :=
  mkDeviceMemory (replicate N junk) (replicate N junk)
                 (replicate (hist_buffer_ints bin_count) 0%Z)
                 (replicate (hist_buffer_ints bin_count) junk)
                 (replicate (hist_buffer_ints bin_count) junk).

(** The scenario of the specification: eight pixels, four bins. *)
Definition scenario : CImg := mkCImg 4 2 1 1 [0; 0; 1; 1; 2; 2; 3; 3]%Z.


(** No pixel. *)
Definition empty_image : CImg := mkCImg 0 0 0 0 [].

(** Device memory as a later stage finds it: the image uploaded, and the
    leading entries of a histogram buffer set. *)
Definition prefixed (l buf : list Z) : list Z := l ++ drop (length l) buf.

Definition at_stage (image_input : CImg) (H C T : list Z)
    (m : DeviceMemory) : DeviceMemory :=
  mkDeviceMemory (data image_input) (dev_image_output m)
                 (prefixed H (int_histogram m))
                 (prefixed C (cum_histogram m))
                 (prefixed T (norm_histogram m)).

(** 512 pixels of intensity 0. *)
Definition flat_512 : CImg := mkCImg 32 16 1 1 (replicate 512 0%Z).

(** An environment in which the number [B] is typed, the file holds
    [image] and every call succeeds. *)
Definition succeeding (B : Z) (image : CImg) : Environment :=
  mkEnvironment B (λ _, inr image) (λ _, None) (λ _, CL_SUCCESS)
    (λ c, match c with
          | enqueueNDRangeKernel "back_project" => (100, 250)%Z
          | enqueueNDRangeKernel _ => (40, 90)%Z
          | _ => (10, 20)%Z
          end)
    "platform" "device" "" (λ _, "CL_BUILD_PROGRAM_FAILURE") (λ _, "")
    (fresh (size image) (Z.to_nat B) 7)
    (in_order (size image) (Z.to_nat B) 7).

(** The same, except that the call [c] reports the error [err]. *)
Definition failing (c : call) (err : Z) (B : Z) (image : CImg)
    : Environment :=
  mkEnvironment B (λ _, inr image) (λ _, None)
    (λ c', if decide (c' = c) then err else CL_SUCCESS)
    (profile (succeeding B image))
    "platform" "device" "" (λ _, "CL_BUILD_PROGRAM_FAILURE") (λ _, "")
    (fresh (size image) (Z.to_nat B) 7)
    (in_order (size image) (Z.to_nat B) 7).

End Examples.
Import Examples.

(* ===================================================================== *)
(** * The command line *)
(* ===================================================================== *)

Module CommandLine.

(** The three variables the options set (lines 41-43). *)
Record Options : Type := mkOptions {
  platform_id : Z;
  device_id : Z;
  image_filename : string
}.

Definition defaults : Options := mkOptions 0 0 "test.pgm".

(** [print_help] (lines 29-37). *)
Definition print_help : list output :=
  [cerr "Application usage:";
   cerr "  -p : select platform ";
   cerr "  -d : select device";
   cerr "  -l : list all platforms and devices";
   cerr "  -f : input image file (default: test.ppm)";
   cerr "  -h : print this message"].

(** How the loop over [argv] ends: it runs to the end, or [-h] makes
    [main] return. *)
Inductive parsed : Type :=
  | Proceed (o : Options)
  | Return (code : Z).

Section parse.
Variable atoi : string → Z.
Variable ListPlatformsDevices : string.

(** The loop of lines 45-51 over [argv[i..argc-1]].  An option that takes
    a value needs [i < argc - 1], a following argument, which [++i] then
    skips.  [ListPlatformsDevices()] is taken to return its string: the
    loop stands before the [try] block, and an error thrown there is
    outside the model. *)
Fixpoint parse_loop (args : list string) (o : Options) (out : list output)
    : parsed * list output :=
  match args with
  | [] => (Proceed o, out)
  | a :: rest =>
      match decide (a = "-p"), rest with
      | left _, v :: rest' =>
          parse_loop rest' (mkOptions (atoi v) (device_id o)
                                      (image_filename o)) out
      | _, _ =>
      match decide (a = "-d"), rest with
      | left _, v :: rest' =>
          parse_loop rest' (mkOptions (platform_id o) (atoi v)
                                      (image_filename o)) out
      | _, _ =>
      if decide (a = "-l")
      then parse_loop rest o (out ++ [cout ListPlatformsDevices])
      else
      match decide (a = "-f"), rest with
      | left _, v :: rest' =>
          parse_loop rest' (mkOptions (platform_id o) (device_id o) v) out
      | _, _ =>
      if decide (a = "-h") then (Return 0, out ++ print_help)
      else parse_loop rest o out
      end
      end
      end
  end.

(** A run of the program as its user sees it: the value [main] returns,
    if it returns, what is printed and shown, and the kernels
    dispatched. *)
Record Run : Type := mkRun {
  returned : option Z;
  seen : list output;
  launched : list launch
}.

(** [main(argc, argv)]: the options are read from [argv[1..]], then the
    [try] block runs on the file they name; [main] returns 0 also after a
    handler has run (line 192). *)
Definition returned_after (o : outcome) : option Z :=
  match o with
  | Finished | Caught _ => Some 0%Z
  | Uncaught _ => None
  end.

Definition program (argv : list string) (env : Environment) : Run :=
  match parse_loop (tail argv) defaults [] with
  | (Return code, out) => mkRun (Some code) out []
  | (Proceed o, out) =>
      let run := main env (image_filename o) in
      mkRun (returned_after (fst run)) (out ++ console (snd run))
            (dispatched (snd run))
  end.

(** Command lines spelt out: options with their values, the listing
    option, and arguments that are none of the five options. *)
Inductive item : Type :=
  | opt_p (v : string)
  | opt_d (v : string)
  | opt_l
  | opt_f (v : string)
  | other (s : string).

Definition render_item (it : item) : list string :=
  match it with
  | opt_p v => ["-p"; v]
  | opt_d v => ["-d"; v]
  | opt_l => ["-l"]
  | opt_f v => ["-f"; v]
  | other s => [s]
  end.

Definition render (items : list item) : list string :=
  items ≫= render_item.

Definition is_option (s : string) : Prop :=
  s ∈ ["-p"; "-d"; "-l"; "-f"; "-h"].

Definition spelt (items : list item) : Prop :=
  ∀ s, other s ∈ items → ¬ is_option s.

(** What an item does to the options, and what it prints. *)
Definition apply_item (o : Options) (it : item) : Options :=
  match it with
  | opt_p v => mkOptions (atoi v) (device_id o) (image_filename o)
  | opt_d v => mkOptions (platform_id o) (atoi v) (image_filename o)
  | opt_f v => mkOptions (platform_id o) (device_id o) v
  | opt_l | other _ => o
  end.

Definition listing (it : item) : list output :=
  match it with
  | opt_l => [cout ListPlatformsDevices]
  | _ => []
  end.

End parse.

(** A command line for the examples. *)
Definition sample_items : list item :=
  [opt_p "1"; opt_f "-h"; other "x.pgm"; opt_l; opt_d "2"; opt_f "a.pgm"].

Definition digit (s : string) : Z :=
  if decide (s = "1") then 1 else if decide (s = "2") then 2 else 0.

End CommandLine.
Import CommandLine.

(* ===================================================================== *)
(** * What the stages compute together *)
(* ===================================================================== *)

Module Equalisation.

(** The number of pixels of intensity at most [v]. *)
Definition count_upto (v : nat) (pixels : list Z) : nat :=
  length (filter (λ p, Z.to_nat p ≤ v) pixels).

(** The output intensity of a pixel of intensity [pixel] in an image of
    [N] pixels equalised over [bin_count] bins. *)
Definition equalised_pixel (pixels : list Z) (N bin_count : nat) (pixel : Z)
    : Z :=
  clamp 0 255
    (Z.quot (Z.of_nat (count_upto (Z.to_nat pixel) pixels))
            (Z.quot (Z.of_nat N) (Z.of_nat bin_count))).

(** The four dispatches of a run in which no call fails (lines 123, 138,
    152 and 164). *)
Definition dispatches (image_input : CImg) (bin_count : nat) : list launch :=
  [mkLaunch "int_hist" (size image_input) bin_count [];
   mkLaunch "cum_hist" (hist_size bin_count) bin_count [];
   mkLaunch "norm_hist" (hist_size bin_count) bin_count
     [int_wrap (Z.of_nat (size image_input)); int_wrap (Z.of_nat bin_count)];
   mkLaunch "back_project" (size image_input) bin_count []].

(** The first call, in the order of [calls], that reports an error. *)
Definition first_failure (env : Environment) : option call :=
  head (filter (λ c, status env c ≠ CL_SUCCESS) calls).

(** A uniform image of [w * h] pixels of intensity [c]. *)
Definition uniform (w h : nat) (c : Z) : CImg :=
  mkCImg w h 1 1 (replicate (w * h * 1 * 1) c).

End Equalisation.
Import Equalisation.

(* ===================================================================== *)
(** * What OpenCL fixes for every device, and what it leaves open *)
(* ===================================================================== *)

Module OpenCL.

(** [CL_INVALID_BUFFER_SIZE] of [cl.h]. *)
Definition CL_INVALID_BUFFER_SIZE : Z := -61.

(** The byte size each buffer of [main] is created with (lines
    100-104). *)
Definition buffer_bytes (image_input : CImg) (bin_count : nat)
    (name : string) : nat :=
  if decide (name = "dev_image_input" ∨ name = "dev_image_output")
  then size image_input
  else hist_buffer_bytes bin_count.

(** [clCreateBuffer] refuses a size of 0 bytes with
    [CL_INVALID_BUFFER_SIZE], on every device. *)
Definition refuses_empty_buffers (env : Environment) (image_input : CImg)
    : Prop :=
  ∀ name, buffer_bytes image_input (Z.to_nat (cin env)) name = 0 →
          status env (Buffer name) = CL_INVALID_BUFFER_SIZE.

(** A device that refuses the buffers of 0 bytes and on which no other
    call fails. *)
Definition conforming (B : Z) (image : CImg) : Environment :=
  mkEnvironment B (λ _, inr image) (λ _, None)
    (λ c, match c with
          | Buffer name =>
              if decide (buffer_bytes image (Z.to_nat B) name = 0)
              then CL_INVALID_BUFFER_SIZE else CL_SUCCESS
          | _ => CL_SUCCESS
          end)
    (profile (succeeding B image))
    "platform" "device" "" (λ _, "CL_INVALID_BUFFER_SIZE") (λ _, "")
    (fresh (size image) (Z.to_nat B) 7)
    (in_order (size image) (Z.to_nat B) 7).

(** The contents of a new buffer are left open.  Buffers handed out with
    [junk] in every cell, the bins included, and a device that hands them
    out, no call failing. *)
Definition unfilled (N bin_count : nat) (junk : Z) : DeviceMemory :=
  mkDeviceMemory (replicate N junk) (replicate N junk)
                 (replicate (hist_buffer_ints bin_count) junk)
                 (replicate (hist_buffer_ints bin_count) junk)
                 (replicate (hist_buffer_ints bin_count) junk).

Definition unfilled_device (junk : Z) (B : Z) (image : CImg) : Environment :=
  mkEnvironment B (λ _, inr image) (λ _, None) (λ _, CL_SUCCESS)
    (profile (succeeding B image))
    "platform" "device" "" (λ _, "") (λ _, "")
    (unfilled (size image) (Z.to_nat B) junk)
    (in_order (size image) (Z.to_nat B) 7).

End OpenCL.
Import OpenCL.

(* ===================================================================== *)
(** * Machine arithmetic *)
(* ===================================================================== *)

Section arithmetic.
Local Open Scope Z_scope.

Lemma int_wrap_id z : is_int z → int_wrap z = z.
Proof.
  unfold is_int, INT_MIN, INT_MAX, int_wrap. intros Hz.
  rewrite Z.mod_small; lia.
Qed.

Lemma int_wrap_is_int z : is_int (int_wrap z).
Proof.
  unfold is_int, INT_MIN, INT_MAX, int_wrap.
  pose proof (Z.mod_pos_bound (z + 2 ^ 31) (2 ^ 32)). lia.
Qed.

Lemma int_wrap_add_l a b : int_wrap (int_wrap a + b) = int_wrap (a + b).
Proof.
  unfold int_wrap.
  replace ((a + 2 ^ 31) mod 2 ^ 32 - 2 ^ 31 + b + 2 ^ 31)
    with ((a + 2 ^ 31) mod 2 ^ 32 + b) by lia.
  rewrite Zplus_mod_idemp_l. do 2 f_equal. lia.
Qed.

Lemma int_wrap_add_r a b : int_wrap (a + int_wrap b) = int_wrap (a + b).
Proof. rewrite (Z.add_comm a), int_wrap_add_l. f_equal. lia. Qed.

Lemma incremented_wrap k c :
  (0 < k)%nat → incremented k c = int_wrap (c + Z.of_nat k).
Proof.
  unfold incremented. induction k as [|k IH]; [lia|]. intros _.
  destruct k as [|k].
  - reflexivity.
  - rewrite Nat.iter_succ, IH by lia. unfold int_add.
    rewrite int_wrap_add_l. f_equal. lia.
Qed.

Lemma incremented_zero k :
  Z.of_nat k ≤ INT_MAX → incremented k 0 = Z.of_nat k.
Proof.
  intros Hk. destruct k as [|k]; [reflexivity|].
  rewrite incremented_wrap by lia. apply int_wrap_id.
  unfold is_int, INT_MIN, INT_MAX in *. lia.
Qed.

Lemma clamp_range z : is_uchar (clamp 0 255 z).
Proof. unfold is_uchar, clamp. lia. Qed.

Lemma clamp_mono x y : x ≤ y → clamp 0 255 x ≤ clamp 0 255 y.
Proof. unfold clamp. lia. Qed.

Lemma uchar_wrap_id z : is_uchar z → uchar_wrap z = z.
Proof. unfold is_uchar, uchar_wrap. intros. apply Z.mod_small. lia. Qed.

End arithmetic.

(* ===================================================================== *)
(** * Dispatches whose work-items write their own cell *)
(* ===================================================================== *)

Lemma run_items_cons {S : Type} (item : nat → S → option S) id sched s :
  run_items item (id :: sched) s = item id s ≫= run_items item sched.
Proof. reflexivity. Qed.

Lemma run_items_app {S : Type} (item : nat → S → option S) l1 l2 s :
  run_items item (l1 ++ l2) s = run_items item l1 s ≫= run_items item l2.
Proof.
  revert s. induction l1 as [|a l1 IH]; intros s; [done|].
  simpl. destruct (item a s); simpl; [apply IH|done].
Qed.

Lemma run_items_ext {S : Type} (item item' : nat → S → option S) sched s :
  (∀ id s, item id s = item' id s) →
  run_items item sched s = run_items item' sched s.
Proof.
  intros Hext. revert s. induction sched as [|a l IH]; intros s; [done|].
  rewrite !run_items_cons, Hext. destruct (item' a s); simpl; [apply IH|done].
Qed.

Section writers.
Context (off : nat) (f : nat → option Z).

Lemma store_Some i v buf :
  i < length buf → store i v buf = Some (<[i := v]> buf).
Proof. intros. unfold store. by rewrite option_guard_True. Qed.

Lemma run_writer_lookup sched : ∀ buf,
  (∀ i, i ∈ sched → off + i < length buf ∧ is_Some (f i)) →
  ∃ buf', run_items (writer off f) sched buf = Some buf' ∧
          length buf' = length buf ∧
          ∀ j, buf' !! j =
               if decide (off ≤ j ∧ j - off ∈ sched)
               then Some (default 0%Z (f (j - off))) else buf !! j.
Proof.
  induction sched as [|a sched IH]; intros buf Hok.
  - exists buf. split_and!; [done..|]. intros j.
    case_decide as Hj; [|done]. destruct Hj as [_ Hj]. by apply elem_of_nil in Hj.
  - destruct (Hok a) as [Ha [v Hv]]; [left|].
    destruct (IH (<[off + a := v]> buf)) as (buf' & Hrun & Hlen & Hget).
    { intros i Hi. rewrite length_insert. apply Hok. by right. }
    exists buf'. split_and!.
    + rewrite run_items_cons.
      assert (writer off f a buf = Some (<[off + a := v]> buf)) as ->.
      { unfold writer. rewrite Hv. simpl. by apply store_Some. }
      exact Hrun.
    + by rewrite Hlen, length_insert.
    + intros j. rewrite Hget, list_lookup_insert.
      destruct (decide (off + a = j)) as [<-|Hne].
      * replace (off + a - off) with a by lia. rewrite Hv. simpl.
        rewrite (decide_True (P := off ≤ off + a ∧ a ∈ a :: sched))
          by (split; [lia|left]).
        repeat case_decide; (done || lia).
      * rewrite (decide_False (P := off + a = j ∧ _)) by tauto.
        destruct (decide (off ≤ j ∧ j - off ∈ sched)) as [[Hj1 Hj2]|Hn].
        -- rewrite decide_True; [done|]. split; [done|by right].
        -- rewrite decide_False; [done|].
           intros [Hj1 [Hj2|Hj2]%elem_of_cons]; [lia|tauto].
Qed.

Lemma run_writer_fault sched : ∀ buf i,
  i ∈ sched → f i = None → run_items (writer off f) sched buf = None.
Proof.
  induction sched as [|a sched IH]; intros buf i Hi Hf.
  - by apply elem_of_nil in Hi.
  - rewrite run_items_cons. apply elem_of_cons in Hi as [->|Hi].
    + unfold writer. by rewrite Hf.
    + destruct (writer off f a buf) as [buf1|]; [|done]. simpl. eauto.
Qed.

Lemma written_lookup n buf j :
  off + n ≤ length buf →
  (take off buf ++ ((λ i, default 0%Z (f i)) <$> seq 0 n)
             ++ drop (off + n) buf) !! j =
  if decide (off ≤ j ∧ j - off < n)
  then Some (default 0%Z (f (j - off))) else buf !! j.
Proof.
  intros Hn.
  destruct (decide (j < off)) as [Hlt|Hge].
  - rewrite lookup_app_l by (rewrite length_take; lia).
    rewrite lookup_take_lt by lia. case_decide; [lia|done].
  - rewrite lookup_app_r by (rewrite length_take; lia).
    rewrite length_take, Nat.min_l by lia.
    destruct (decide (j - off < n)) as [Hin|Hout].
    + rewrite lookup_app_l by (by rewrite length_fmap, length_seq).
      rewrite list_lookup_fmap, lookup_seq_lt by done. simpl.
      by rewrite decide_True by lia.
    + rewrite lookup_app_r by (rewrite length_fmap, length_seq; lia).
      rewrite length_fmap, length_seq, lookup_drop.
      rewrite decide_False by lia. f_equal. lia.
Qed.

(** Whatever the order of the work-items, the dispatch writes the [n]
    values, or faults when one of the work-items does. *)
Lemma run_writer n sched buf :
  schedule_of n sched → off + n ≤ length buf →
  run_items (writer off f) sched buf = written off n f buf.
Proof.
  intros Hs Hn. unfold written. case_decide as Hall.
  - rewrite Forall_forall in Hall.
    destruct (run_writer_lookup sched buf) as (buf' & -> & Hlen & Hget).
    { intros i Hi. rewrite Hs in Hi. apply elem_of_seq in Hi.
      split; [lia|]. apply Hall, elem_of_seq. lia. }
    f_equal. apply list_eq. intros j.
    rewrite Hget, written_lookup by done.
    repeat case_decide; try done.
    + exfalso. destruct H as [? Hj]. rewrite Hs in Hj.
      apply elem_of_seq in Hj. lia.
    + exfalso. apply H. split; [lia|]. rewrite Hs. apply elem_of_seq. lia.
  - apply not_Forall_Exists in Hall; [|apply _].
    apply Exists_exists in Hall as (i & Hi & Hnone).
    apply (run_writer_fault sched buf i).
    + by rewrite Hs.
    + simpl in Hnone. destruct (f i); [|done]. exfalso. apply Hnone. eauto.
Qed.

Lemma written_length n buf buf' :
  off + n ≤ length buf → written off n f buf = Some buf' →
  length buf' = length buf.
Proof.
  unfold written. intros Hn. case_decide; [|done]. intros [= <-].
  rewrite !length_app, length_take, length_fmap, length_seq, length_drop. lia.
Qed.

End writers.

Lemma written_ext off n f g buf :
  (∀ i, i < n → f i = g i) → written off n f buf = written off n g buf.
Proof.
  intros Hfg. unfold written.
  assert (Forall (λ i, is_Some (f i)) (seq 0 n) ↔
          Forall (λ i, is_Some (g i)) (seq 0 n)) as Hiff.
  { rewrite !Forall_forall. split; intros H i Hi; specialize (H i Hi);
      apply elem_of_seq in Hi; [rewrite <- Hfg|rewrite Hfg]; (done || lia). }
  repeat case_decide; try tauto. do 3 f_equal.
  apply list_fmap_ext. intros i x [-> ?]%lookup_seq. simpl. by rewrite Hfg.
Qed.

(** A dispatch that covers its whole buffer leaves nothing of what the
    buffer held before. *)
Lemma written_whole n f buf buf' :
  length buf = n → length buf' = n →
  written 0 n f buf = written 0 n f buf'.
Proof.
  intros Hb Hb'. unfold written. case_decide; [|done].
  simpl. by rewrite !drop_ge by lia.
Qed.

(* ===================================================================== *)
(** * The histogram build *)
(* ===================================================================== *)

Section int_hist.

Lemma count_nil v : count v [] = 0.
Proof. reflexivity. Qed.

Lemma count_cons v p pixels :
  count v (p :: pixels) =
  (if decide (Z.to_nat p = v) then 1 else 0) + count v pixels.
Proof. unfold count. rewrite filter_cons. by case_decide. Qed.

Lemma count_perm v pixels pixels' :
  pixels ≡ₚ pixels' → count v pixels = count v pixels'.
Proof. unfold count. by intros ->. Qed.

Lemma count_le v pixels : count v pixels ≤ length pixels.
Proof. unfold count. apply length_filter. Qed.

Lemma counted_perm pixels pixels' H :
  pixels ≡ₚ pixels' → counted pixels H = counted pixels' H.
Proof.
  intros Hp. unfold counted.
  destruct (decide (Forall (λ p, Z.to_nat p < length H) pixels)) as [Hall|Hn].
  - rewrite decide_True by (by rewrite <- Hp). f_equal.
    apply imap_ext. intros v c _. simpl. by rewrite (count_perm _ _ _ Hp).
  - rewrite decide_False by (by rewrite <- Hp). done.
Qed.

Lemma incremented_succ_r k c :
  incremented (S k) c = incremented k (int_add c 1).
Proof. unfold incremented. by rewrite Nat.iter_succ_r. Qed.

Lemma counted_Some pixels H H' :
  counted pixels H = Some H' →
  length H' = length H ∧
  ∀ v, H' !! v = incremented (count v pixels) <$> H !! v.
Proof.
  unfold counted. case_decide; [|done]. intros [= <-]. split.
  - apply length_imap.
  - intros v. by rewrite list_lookup_imap.
Qed.

Lemma int_hist_pixel A id p H :
  A !! id = Some p →
  int_hist A id H =
  if decide (Z.to_nat p < length H)
  then Some (alter (λ count, int_add count 1) (Z.to_nat p) H) else None.
Proof.
  intros Hp. unfold int_hist. rewrite Hp. simpl. case_decide.
  - by rewrite option_guard_True.
  - by rewrite option_guard_False.
Qed.

Lemma run_int_hist_any A sched : ∀ H,
  (∀ id, id ∈ sched → id < length A) →
  run_items (int_hist A) sched H = counted ((λ id, A !!! id) <$> sched) H.
Proof.
  induction sched as [|a sched IH]; intros H Hin.
  - simpl. unfold counted. rewrite decide_True by constructor. f_equal.
    apply list_eq. intros v. rewrite list_lookup_imap.
    by destruct (H !! v).
  - rewrite run_items_cons, fmap_cons.
    destruct (lookup_lt_is_Some_2 A a) as [p Hp]; [apply Hin; left|].
    rewrite (list_lookup_total_correct _ _ _ Hp).
    rewrite (int_hist_pixel _ _ _ _ Hp).
    destruct (decide (Z.to_nat p < length H)) as [Hlt|Hge].
    + simpl.
      rewrite IH by (intros; apply Hin; by right).
      unfold counted. rewrite length_alter.
      destruct (decide (Forall (λ p, Z.to_nat p < length H)
                               ((λ id, A !!! id) <$> sched))) as [Hall|Hn].
      * rewrite decide_True by (by constructor). f_equal.
        apply list_eq. intros v.
        rewrite !list_lookup_imap, list_lookup_alter, count_cons.
        destruct (decide (Z.to_nat p = v)) as [->|Hne].
        -- destruct (H !! v); [|done]. simpl.
           by rewrite <- incremented_succ_r.
        -- done.
      * rewrite decide_False; [done|].
        intros Hall. apply Hn. by inversion Hall.
    + simpl.
      unfold counted. rewrite decide_False; [done|].
      intros Hall. inversion Hall; subst. lia.
Qed.

Lemma total_lookup_seq (A : list Z) :
  (λ id, A !!! id) <$> seq 0 (length A) = A.
Proof.
  apply list_eq. intros i. rewrite list_lookup_fmap.
  destruct (decide (i < length A)) as [Hlt|Hge].
  - rewrite lookup_seq_lt by done. simpl.
    destruct (lookup_lt_is_Some_2 A i Hlt) as [x Hx].
    by rewrite (list_lookup_total_correct _ _ _ Hx).
  - rewrite lookup_seq_ge, lookup_ge_None_2 by lia. done.
Qed.

(** The atomic increments commute: whatever the order of the work-items,
    every pixel is counted once, or the dispatch faults when a pixel
    indexes past the buffer. *)
Lemma run_int_hist A sched H :
  schedule_of (length A) sched →
  run_items (int_hist A) sched H = counted A H.
Proof.
  intros Hs. rewrite run_int_hist_any.
  - apply counted_perm. rewrite Hs. by rewrite total_lookup_seq.
  - intros id Hid. rewrite Hs in Hid. apply elem_of_seq in Hid. lia.
Qed.

End int_hist.

(* ===================================================================== *)
(** * The scan: from work-items to Hillis-Steele steps *)
(* ===================================================================== *)

Lemma written_Some off n f (g : nat → Z) buf :
  (∀ i, i < n → f i = Some (g i)) →
  written off n f buf =
  Some (take off buf ++ (g <$> seq 0 n) ++ drop (off + n) buf).
Proof.
  intros Hf. unfold written. rewrite decide_True.
  - do 3 f_equal. apply list_fmap_ext. intros i x [-> ?]%lookup_seq.
    simpl. by rewrite Hf.
  - apply Forall_forall. intros i Hi%elem_of_seq. rewrite Hf by lia. eauto.
Qed.

Lemma fmap_seq_lookup (g : nat → Z) n l :
  length l = n → (∀ i, i < n → l !! i = Some (g i)) → g <$> seq 0 n = l.
Proof.
  intros Hlen Hl. apply list_eq. intros i. rewrite list_lookup_fmap.
  destruct (decide (i < n)).
  - rewrite lookup_seq_lt, Hl by done. done.
  - rewrite lookup_seq_ge, lookup_ge_None_2 by lia. done.
Qed.

Lemma length_slice n group A :
  group * n + n ≤ length A → length (slice n group A) = n.
Proof. intros. unfold slice. rewrite length_take, length_drop. lia. Qed.

Lemma lookup_slice n group A i :
  i < n → slice n group A !! i = A !! (group * n + i).
Proof. intros. unfold slice. by rewrite lookup_take_lt, lookup_drop. Qed.

Lemma length_hs_step d cur : length (hs_step d cur) = length cur.
Proof. apply length_imap. Qed.

Lemma length_hs_steps steps : ∀ cur,
  length (foldl (λ cur s, hs_step (2 ^ s) cur) cur steps) = length cur.
Proof.
  induction steps as [|s steps IH]; intros cur; [done|].
  simpl. by rewrite IH, length_hs_step.
Qed.

Lemma length_hs_scan xs : length (hs_scan xs) = length xs.
Proof. apply length_hs_steps. Qed.

Section cum_hist_phases.
Context (A : list Z) (group n : nat).
Context (sched : nat → list nat).
Hypothesis Hsched : ∀ phase, schedule_of n (sched phase).
Hypothesis HA : group * n + n ≤ length A.

Lemma run_cum_hist_cache scratch_1 :
  n ≤ length scratch_1 →
  run_items (cum_hist_cache A group n) (sched 0) scratch_1 =
  Some (slice n group A ++ drop n scratch_1).
Proof.
  intros Hlen.
  change (cum_hist_cache A group n)
    with (writer 0 (λ lid, A !! (group * n + lid))).
  rewrite (run_writer _ _ n) by (done || simpl; lia).
  rewrite (written_Some _ _ _ (λ lid, A !!! (group * n + lid))).
  - simpl. do 2 f_equal. apply fmap_seq_lookup.
    + by apply length_slice.
    + intros i Hi. rewrite lookup_slice by done.
      apply list_lookup_lookup_total_lt. lia.
  - intros i Hi. apply list_lookup_lookup_total_lt. lia.
Qed.

Lemma cum_hist_step_writer d scratch_1 lid scratch_2 :
  cum_hist_step d scratch_1 lid scratch_2 =
  writer 0 (λ lid, x ← scratch_1 !! lid;
                   if decide (d ≤ lid)
                   then y ← scratch_1 !! (lid - d); Some (int_add x y)
                   else Some x) lid scratch_2.
Proof.
  unfold cum_hist_step, writer. destruct (scratch_1 !! lid); [|done]. done.
Qed.

Lemma run_cum_hist_step d phase scratch_1 scratch_2 :
  n ≤ length scratch_1 → n ≤ length scratch_2 →
  run_items (cum_hist_step d scratch_1) (sched phase) scratch_2 =
  Some (hs_step d (take n scratch_1) ++ drop n scratch_2).
Proof.
  intros H1 H2.
  rewrite (run_items_ext _ _ _ _ (cum_hist_step_writer d scratch_1)).
  rewrite (run_writer _ _ n) by (done || simpl; lia).
  rewrite (written_Some _ _ _ (λ lid, hs_step d (take n scratch_1) !!! lid)).
  - simpl. do 2 f_equal. apply fmap_seq_lookup.
    + rewrite length_hs_step, length_take. lia.
    + intros i Hi. apply list_lookup_lookup_total_lt.
      rewrite length_hs_step, length_take. lia.
  - intros i Hi.
    destruct (lookup_lt_is_Some_2 scratch_1 i) as [x Hx]; [lia|].
    assert (hs_step d (take n scratch_1) !! i =
            Some (if decide (d ≤ i)
                  then int_add x (take n scratch_1 !!! (i - d)) else x)) as Hstep.
    { unfold hs_step. rewrite list_lookup_imap, lookup_take_lt, Hx by done.
      done. }
    rewrite (list_lookup_total_correct _ _ _ Hstep), Hx. simpl.
    case_decide; [|done].
    destruct (lookup_lt_is_Some_2 scratch_1 (i - d)) as [y Hy]; [lia|].
    rewrite Hy. simpl. do 2 f_equal. symmetry.
    apply list_lookup_total_correct. rewrite lookup_take_lt by lia. done.
Qed.

Lemma run_cum_hist_loop steps : ∀ scratch_1 scratch_2,
  n ≤ length scratch_1 → n ≤ length scratch_2 →
  ∃ s1 s2, cum_hist_loop sched steps scratch_1 scratch_2 = Some (s1, s2) ∧
           n ≤ length s1 ∧ n ≤ length s2 ∧
           take n s1 =
           foldl (λ cur s, hs_step (2 ^ s) cur) (take n scratch_1) steps.
Proof.
  induction steps as [|s steps IH]; intros scratch_1 scratch_2 H1 H2.
  - exists scratch_1, scratch_2. by split_and!.
  - simpl. rewrite run_cum_hist_step by done. simpl.
    assert (length (hs_step (2 ^ s) (take n scratch_1)) = n) as Hlen.
    { rewrite length_hs_step, length_take. lia. }
    destruct (IH (hs_step (2 ^ s) (take n scratch_1) ++ drop n scratch_2)
                 scratch_1) as (s1 & s2 & -> & ? & ? & Htake).
    { rewrite length_app. lia. }
    { done. }
    exists s1, s2. split_and!; [done..|].
    rewrite Htake. f_equal. rewrite take_app_length'; done.
Qed.

Lemma run_cum_hist_copy phase scratch_1 B :
  n ≤ length scratch_1 → group * n + n ≤ length B →
  run_items (cum_hist_copy group n scratch_1) (sched phase) B =
  Some (take (group * n) B ++ take n scratch_1 ++ drop (group * n + n) B).
Proof.
  intros H1 HB.
  change (cum_hist_copy group n scratch_1)
    with (writer (group * n) (λ lid, scratch_1 !! lid)).
  rewrite (run_writer _ _ n) by done.
  rewrite (written_Some _ _ _ (λ lid, scratch_1 !!! lid)).
  - do 3 f_equal. apply fmap_seq_lookup.
    + rewrite length_take. lia.
    + intros i Hi. rewrite lookup_take_lt by done.
      apply list_lookup_lookup_total_lt. lia.
  - intros i Hi. apply list_lookup_lookup_total_lt. lia.
Qed.

(** A work-group replaces its slice of [B] by the scan of its slice of
    [A], whatever the order of its work-items within each phase and
    whatever the local buffers held. *)
Lemma run_cum_hist scratch_1 scratch_2 B :
  n ≤ length scratch_1 → n ≤ length scratch_2 → group * n + n ≤ length B →
  cum_hist A group n sched scratch_1 scratch_2 B =
  Some (take (group * n) B ++ hs_scan (slice n group A)
                           ++ drop (group * n + n) B).
Proof.
  intros H1 H2 HB. unfold cum_hist.
  rewrite run_cum_hist_cache by done. simpl.
  destruct (run_cum_hist_loop (seq 0 (cum_hist_steps n))
              (slice n group A ++ drop n scratch_1) scratch_2)
    as (s1 & s2 & -> & Hs1 & Hs2 & Htake).
  { rewrite length_app, length_slice by done. lia. }
  { done. }
  simpl. rewrite run_cum_hist_copy by done. do 3 f_equal.
  rewrite Htake. rewrite take_app_length' by (by rewrite length_slice).
  unfold hs_scan, cum_hist_steps. by rewrite length_slice.
Qed.

End cum_hist_phases.

Lemma scan_groups_S n groups A :
  scan_groups n (S groups) A =
  scan_groups n groups A ++ hs_scan (slice n groups A).
Proof.
  unfold scan_groups. rewrite seq_S, bind_app. simpl.
  by rewrite app_nil_r.
Qed.

Lemma length_scan_groups n groups A :
  groups * n ≤ length A → length (scan_groups n groups A) = groups * n.
Proof.
  induction groups as [|g IH]; intros Hlen; [done|].
  rewrite scan_groups_S, length_app, length_hs_scan, length_slice, IH; lia.
Qed.

(** The work-groups of the dispatch, one after the other. *)
Lemma run_cum_hist_groups A n sched local_1 local_2 groups : ∀ B,
  (∀ group phase, schedule_of n (sched group phase)) →
  (∀ group, n ≤ length (local_1 group)) →
  (∀ group, n ≤ length (local_2 group)) →
  groups * n ≤ length A → groups * n ≤ length B →
  run_items (λ group, cum_hist A group n (sched group)
                               (local_1 group) (local_2 group))
            (seq 0 groups) B =
  Some (scan_groups n groups A ++ drop (groups * n) B).
Proof.
  intros B Hs H1 H2. induction groups as [|g IH]; intros HA HB.
  - simpl. by rewrite drop_0.
  - rewrite seq_S, run_items_app, IH by lia. simpl.
    rewrite run_cum_hist; [|by auto|lia|by auto|by auto|].
    + simpl. f_equal. rewrite scan_groups_S, <- app_assoc.
      rewrite take_app_length' by (rewrite length_scan_groups; lia).
      do 2 f_equal.
      rewrite drop_app_ge by (rewrite length_scan_groups; lia).
      rewrite length_scan_groups, drop_drop by lia. f_equal. lia.
    + rewrite length_app, length_scan_groups, length_drop; lia.
Qed.

(* ===================================================================== *)
(** * The scan: from Hillis-Steele steps to prefix sums *)
(* ===================================================================== *)

Section prefix_sums.
Local Open Scope Z_scope.

Lemma sum_Z_app l k : sum_Z (l ++ k) = sum_Z l + sum_Z k.
Proof. unfold sum_Z. induction l as [|x l IH]; simpl; lia. Qed.

Lemma psum_0 xs : psum xs 0 = 0.
Proof. reflexivity. Qed.

Lemma psum_S xs k x :
  xs !! k = Some x → psum xs (S k) = psum xs k + x.
Proof.
  intros Hx. unfold psum. rewrite (take_S_r _ _ _ Hx), sum_Z_app.
  simpl. lia.
Qed.

Lemma psum_all xs k : (length xs ≤ k)%nat → psum xs k = sum_Z xs.
Proof. intros. unfold psum. by rewrite take_ge. Qed.

Lemma psum_mono xs k k' :
  Forall (λ x, 0 ≤ x) xs → (k ≤ k')%nat → psum xs k ≤ psum xs k'.
Proof.
  intros Hpos Hk. induction Hk as [|k' Hk IH]; [lia|].
  destruct (xs !! k') as [x|] eqn:Hx.
  - rewrite (psum_S _ _ _ Hx).
    pose proof (Forall_lookup_1 _ _ _ _ Hpos Hx) as Hx0. simpl in Hx0. lia.
  - apply lookup_ge_None_1 in Hx. rewrite (psum_all xs (S k')) by lia.
    rewrite (psum_all xs k') in IH by lia. done.
Qed.

Lemma psum_nonneg xs k : Forall (λ x, 0 ≤ x) xs → 0 ≤ psum xs k.
Proof. intros. rewrite <- (psum_0 xs). apply psum_mono; [done|lia]. Qed.

Lemma psum_le_sum xs k : Forall (λ x, 0 ≤ x) xs → psum xs k ≤ sum_Z xs.
Proof.
  intros. rewrite <- (psum_all xs (k + length xs)) by lia.
  apply psum_mono; [done|lia].
Qed.

Lemma windowed_init xs : Forall is_int xs → windowed xs 1 xs.
Proof.
  intros Hint. split; [done|]. intros i Hi.
  destruct (lookup_lt_is_Some_2 xs i Hi) as [x Hx].
  rewrite Hx, (psum_S _ _ _ Hx). f_equal.
  replace (S i - 1)%nat with i by lia.
  replace (psum xs i + x - psum xs i) with x by lia.
  symmetry. apply int_wrap_id. exact (Forall_lookup_1 _ _ _ _ Hint Hx).
Qed.

Lemma windowed_step xs d cur :
  (0 < d)%nat → windowed xs d cur → windowed xs (2 * d) (hs_step d cur).
Proof.
  intros Hd [Hlen Hcur]. split; [by rewrite length_hs_step|].
  intros i Hi. unfold hs_step. rewrite list_lookup_imap, Hcur by done.
  cbn [fmap option_fmap option_map]. f_equal. case_decide as Hdi.
  - assert (cur !! (i - d)%nat =
            Some (int_wrap (psum xs (S (i - d)) - psum xs (S (i - d) - d))))
      as Hy by (apply Hcur; lia).
    rewrite (list_lookup_total_correct _ _ _ Hy). unfold int_add.
    rewrite int_wrap_add_l, int_wrap_add_r.
    replace (S i - d)%nat with (S (i - d)) by lia.
    replace (S i - 2 * d)%nat with (S (i - d) - d)%nat by lia.
    f_equal. lia.
  - replace (S i - 2 * d)%nat with 0%nat by lia.
    replace (S i - d)%nat with 0%nat by lia. done.
Qed.

Lemma windowed_steps xs steps :
  Forall is_int xs →
  windowed xs (2 ^ steps)
           (foldl (λ cur s, hs_step (2 ^ s) cur) xs (seq 0 steps)).
Proof.
  intros Hint. induction steps as [|s IH].
  - simpl. by apply windowed_init.
  - rewrite seq_S, foldl_app. simpl.
    replace (2 ^ s + (2 ^ s + 0))%nat with (2 * 2 ^ s)%nat by lia.
    apply windowed_step; [|done].
    pose proof (Nat.pow_nonzero 2 s). lia.
Qed.

Lemma log2_up_covers n : (n ≤ 2 ^ Nat.log2_up n)%nat.
Proof.
  destruct (decide (n = 0%nat)) as [->|Hn]; [simpl; lia|].
  apply Nat.log2_log2_up_spec. lia.
Qed.

(** The scan of a slice of ints holds the prefix sums, in [int]
    arithmetic. *)
Lemma hs_scan_lookup xs i :
  Forall is_int xs → (i < length xs)%nat →
  hs_scan xs !! i = Some (int_wrap (psum xs (S i))).
Proof.
  intros Hint Hi.
  destruct (windowed_steps xs (Nat.log2_up (length xs)) Hint) as [_ Hw].
  unfold hs_scan. rewrite Hw by done. do 2 f_equal.
  pose proof (log2_up_covers (length xs)).
  replace (S i - 2 ^ Nat.log2_up (length xs))%nat with 0%nat by lia.
  rewrite psum_0. lia.
Qed.

Lemma frequency_histogram_is_int N hist :
  frequency_histogram N hist → Forall is_int hist.
Proof.
  intros (Hpos & Hsum & HN). apply Forall_lookup_2. intros i x Hx.
  pose proof (Forall_lookup_1 _ _ _ _ Hpos Hx) as Hx0. simpl in Hx0.
  pose proof (psum_le_sum hist (S i) Hpos) as Hle.
  pose proof (psum_nonneg hist i Hpos).
  rewrite (psum_S _ _ _ Hx) in Hle.
  unfold is_int, INT_MIN, INT_MAX in *. lia.
Qed.

Lemma hs_scan_frequency N hist i :
  frequency_histogram N hist → (i < length hist)%nat →
  hs_scan hist !! i = Some (psum hist (S i)).
Proof.
  intros Hf Hi.
  rewrite hs_scan_lookup by eauto using frequency_histogram_is_int.
  f_equal. apply int_wrap_id. destruct Hf as (Hpos & Hsum & HN).
  pose proof (psum_le_sum hist (S i) Hpos).
  pose proof (psum_nonneg hist (S i) Hpos).
  unfold is_int, INT_MIN, INT_MAX in *. lia.
Qed.

End prefix_sums.

(* ===================================================================== *)
(** * The stages as the host dispatches them *)
(* ===================================================================== *)

Lemma hist_size_ints bin_count : hist_size bin_count / sizeof_int = bin_count.
Proof. unfold hist_size, sizeof_int. by rewrite Nat.div_mul. Qed.

Lemma hist_buffer_ints_eq bin_count :
  hist_buffer_ints bin_count = hist_size bin_count.
Proof. unfold hist_buffer_ints, hist_buffer_bytes, sizeof_int. by rewrite Nat.div_mul. Qed.

Lemma hist_buffer_bytes_pos bin_count :
  0 < bin_count → 0 < hist_buffer_bytes bin_count.
Proof. unfold hist_buffer_bytes, hist_size, sizeof_int. lia. Qed.

Lemma groups_cover bin_count :
  hist_size bin_count / bin_count * bin_count = hist_size bin_count.
Proof.
  unfold hist_size, sizeof_int. destruct bin_count as [|b]; [done|].
  rewrite (Nat.mul_comm (S b) 4), Nat.div_mul by done. lia.
Qed.

Lemma local_ints_fit bin_count : bin_count ≤ local_ints bin_count.
Proof.
  unfold local_ints, sizeof_size_t, sizeof_int.
  replace (bin_count * 8) with ((bin_count * 2) * 4) by lia.
  rewrite Nat.div_mul by done. lia.
Qed.

Lemma read_buffer_Some n buf :
  n ≤ length buf → read_buffer n buf = Some (take n buf).
Proof. intros. unfold read_buffer. by rewrite option_guard_True. Qed.

Lemma write_buffer_whole src buf :
  length buf = length src → write_buffer (length src) src buf = Some src.
Proof.
  intros Hlen. unfold write_buffer. rewrite option_guard_True by lia.
  simpl. by rewrite take_ge, drop_ge, app_nil_r by lia.
Qed.

Lemma upload_Some image_input m :
  CImg_wf image_input → length (dev_image_input m) = size image_input →
  upload image_input m =
  Some (mkDeviceMemory (data image_input) (dev_image_output m)
          (int_histogram m) (cum_histogram m) (norm_histogram m)).
Proof.
  intros [Hsize _] Hlen. unfold upload. rewrite <- Hsize in *.
  do 4 (rewrite write_buffer_whole by done; cbn [mbind option_bind]).
  done.
Qed.

Lemma norm_hist_writer A image_size bin_count id B :
  norm_hist A image_size bin_count id B =
  writer 0 (normalised A image_size bin_count) id B.
Proof.
  unfold norm_hist, normalised, writer.
  destruct (A !! id); [|done]. simpl.
  destruct (int_div image_size bin_count); [|done]. simpl.
  by destruct (int_div _ _).
Qed.

Lemma back_project_writer A LUT id B :
  back_project A LUT id B = writer 0 (projected A LUT) id B.
Proof.
  unfold back_project, projected, writer.
  destruct (A !! id); [|done]. simpl. by destruct (LUT !! _).
Qed.

Section stage_equations.
Context (image_input : CImg) (bin_count : nat) (ex : Execution).
Context (m : DeviceMemory).
Hypothesis Hex : execution_of (size image_input) bin_count ex.
Hypothesis Hm : created (size image_input) bin_count m.

Lemma stage_int_hist_eq :
  stage_int_hist bin_count ex m =
  H ← counted (dev_image_input m) (int_histogram m);
  Some (mkDeviceMemory (dev_image_input m) (dev_image_output m) H
                       (cum_histogram m) (norm_histogram m),
        take bin_count H).
Proof.
  destruct Hex as (Hs & _), Hm as (Hin & _ & Hint & _).
  unfold stage_int_hist. rewrite run_int_hist by (by rewrite Hin).
  destruct (counted _ _) as [H|] eqn:HH; [|done]. cbn [mbind option_bind].
  apply counted_Some in HH as [Hlen _].
  rewrite hist_size_ints, read_buffer_Some; [done|].
  rewrite Hlen, Hint, hist_buffer_ints_eq. unfold hist_size, sizeof_int. lia.
Qed.

Lemma stage_cum_hist_eq :
  let C := scan_groups bin_count (hist_size bin_count / bin_count)
                       (int_histogram m) in
  stage_cum_hist bin_count ex m =
  Some (mkDeviceMemory (dev_image_input m) (dev_image_output m)
                       (int_histogram m) C (norm_histogram m),
        take bin_count C).
Proof.
  destruct Hex as (_ & Hs & Hl1 & Hl2 & _), Hm as (_ & _ & Hint & Hcum & _).
  intros C. unfold stage_cum_hist.
  rewrite run_cum_hist_groups; first last.
  { rewrite groups_cover, Hcum, hist_buffer_ints_eq. done. }
  { rewrite groups_cover, Hint, hist_buffer_ints_eq. done. }
  { intros g. rewrite Hl2. apply local_ints_fit. }
  { intros g. rewrite Hl1. apply local_ints_fit. }
  { done. }
  cbn [mbind option_bind]. rewrite drop_ge, app_nil_r
    by (rewrite groups_cover, Hcum, hist_buffer_ints_eq; done).
  fold C. rewrite hist_size_ints, read_buffer_Some; [done|].
  unfold C. rewrite length_scan_groups
    by (rewrite groups_cover, Hint, hist_buffer_ints_eq; done).
  rewrite groups_cover. unfold hist_size, sizeof_int. lia.
Qed.

Lemma stage_norm_hist_eq :
  stage_norm_hist image_input bin_count ex m =
  T ← written 0 (hist_size bin_count)
         (normalised (cum_histogram m)
            (int_wrap (Z.of_nat (size image_input)))
            (int_wrap (Z.of_nat bin_count)))
         (norm_histogram m);
  Some (mkDeviceMemory (dev_image_input m) (dev_image_output m)
                       (int_histogram m) (cum_histogram m) T,
        take bin_count T).
Proof.
  destruct Hex as (_ & _ & _ & _ & Hs & _), Hm as (_ & _ & _ & _ & Hnorm).
  unfold stage_norm_hist.
  rewrite (run_items_ext _ _ _ _ (norm_hist_writer _ _ _)).
  rewrite (run_writer _ _ _ _ _ Hs)
    by (rewrite Hnorm, hist_buffer_ints_eq; done).
  destruct (written _ _ _ _) as [T|] eqn:HT; [|done]. cbn [mbind option_bind].
  apply written_length in HT;
    [|rewrite Hnorm, hist_buffer_ints_eq; done].
  rewrite hist_size_ints, read_buffer_Some; [done|].
  rewrite HT, Hnorm, hist_buffer_ints_eq. unfold hist_size, sizeof_int. lia.
Qed.

Lemma stage_back_project_eq :
  stage_back_project image_input ex m =
  O ← written 0 (size image_input)
         (projected (dev_image_input m) (norm_histogram m))
         (dev_image_output m);
  Some (mkDeviceMemory (dev_image_input m) O (int_histogram m)
                       (cum_histogram m) (norm_histogram m),
        take (size image_input) O).
Proof.
  destruct Hex as (_ & _ & _ & _ & _ & Hs), Hm as (_ & Hout & _).
  unfold stage_back_project.
  rewrite (run_items_ext _ _ _ _ (back_project_writer _ _)).
  rewrite (run_writer _ _ _ _ _ Hs) by (rewrite Hout; done).
  destruct (written _ _ _ _) as [O|] eqn:HO; [|done]. cbn [mbind option_bind].
  apply written_length in HO; [|rewrite Hout; done].
  rewrite read_buffer_Some; [done|]. rewrite HO, Hout. done.
Qed.

End stage_equations.

(* ===================================================================== *)
(** * The pipeline computes [equalised] *)
(* ===================================================================== *)

Lemma created_lengths N bin_count input output H C T :
  length input = N → length output = N →
  length H = hist_size bin_count → length C = hist_size bin_count →
  length T = hist_size bin_count →
  created N bin_count (mkDeviceMemory input output H C T).
Proof.
  intros. unfold created. rewrite hist_buffer_ints_eq. by split_and!.
Qed.

Lemma length_scan_groups_cover bin_count H :
  length H = hist_size bin_count →
  length (scan_groups bin_count (hist_size bin_count / bin_count) H) =
  hist_size bin_count.
Proof.
  intros HH. rewrite length_scan_groups; rewrite groups_cover; [done|lia].
Qed.

Lemma pipeline_eq image_input bin_count ex m :
  CImg_wf image_input →
  created (size image_input) bin_count m →
  execution_of (size image_input) bin_count ex →
  pipeline image_input bin_count ex m = equalised image_input bin_count m.
Proof.
  intros Hwf Hm Hex. pose proof Hwf as [Hsize _].
  destruct Hm as (Hin & Hout & Hint & Hcum & Hnorm).
  rewrite hist_buffer_ints_eq in Hint, Hcum, Hnorm.
  unfold pipeline, equalised.
  rewrite upload_Some by done. cbn [mbind option_bind].
  rewrite (stage_int_hist_eq image_input) by (done || by apply created_lengths).
  cbn [dev_image_input dev_image_output int_histogram cum_histogram
       norm_histogram].
  destruct (counted _ _) as [H|] eqn:HH; [|done]. cbn [mbind option_bind].
  apply counted_Some in HH as [HlenH _]. rewrite Hint in HlenH.
  rewrite (stage_cum_hist_eq image_input)
    by (done || by apply created_lengths).
  cbn [mbind option_bind dev_image_input dev_image_output int_histogram
       cum_histogram norm_histogram].
  set (C := scan_groups _ _ H).
  assert (length C = hist_size bin_count) as HlenC
    by (by apply length_scan_groups_cover).
  rewrite stage_norm_hist_eq by (done || by apply created_lengths).
  cbn [dev_image_input dev_image_output int_histogram cum_histogram
       norm_histogram].
  destruct (written 0 (hist_size bin_count) _ _) as [T|] eqn:HT; [|done].
  cbn [mbind option_bind].
  apply written_length in HT; [|simpl; lia]. rewrite Hnorm in HT.
  rewrite (stage_back_project_eq image_input bin_count)
    by (done || by apply created_lengths).
  cbn [dev_image_input dev_image_output int_histogram cum_histogram
       norm_histogram].
  destruct (written 0 (size image_input) _ _) as [O|]; done.
Qed.

(** The result depends on the memory the buffers were created with only
    through the initial contents of [int_histogram]. *)
Lemma equalised_memory image_input bin_count m1 m2 :
  created (size image_input) bin_count m1 →
  created (size image_input) bin_count m2 →
  int_histogram m1 = int_histogram m2 →
  equalised image_input bin_count m1 = equalised image_input bin_count m2.
Proof.
  intros (_ & Hout1 & _ & _ & Hnorm1) (_ & Hout2 & _ & _ & Hnorm2) Heq.
  rewrite hist_buffer_ints_eq in Hnorm1, Hnorm2.
  unfold equalised. rewrite Heq.
  destruct (counted _ _) as [H|]; [|done]. cbn [mbind option_bind].
  rewrite (written_whole _ _ (norm_histogram m1) (norm_histogram m2)) by done.
  destruct (written 0 (hist_size bin_count) _ _) as [T|]; [|done].
  cbn [mbind option_bind].
  by rewrite (written_whole _ _ (dev_image_output m1) (dev_image_output m2)).
Qed.

Lemma zeroed_replicate m n :
  zeroed m → length (int_histogram m) = n → int_histogram m = replicate n 0%Z.
Proof.
  unfold zeroed. intros Hz <-. induction Hz as [|x l -> _ IH]; [done|].
  simpl. by rewrite <- IH.
Qed.

(* ===================================================================== *)
(** * The scan stage *)
(* ===================================================================== *)

Lemma take_scan_groups n g A :
  S g * n ≤ length A → take n (scan_groups n (S g) A) = hs_scan (take n A).
Proof.
  induction g as [|g IH]; intros Hlen.
  - rewrite scan_groups_S. unfold scan_groups at 1. simpl.
    unfold slice. simpl. rewrite drop_0.
    rewrite take_ge; [done|]. rewrite length_hs_scan, length_take. lia.
  - rewrite scan_groups_S, take_app_le; [apply IH; lia|].
    rewrite length_scan_groups; lia.
Qed.

Lemma first_group_scan bin_count H :
  0 < bin_count → length H = hist_size bin_count →
  take bin_count (scan_groups bin_count (hist_size bin_count / bin_count) H)
  = hs_scan (take bin_count H).
Proof.
  intros HB HH.
  assert (hist_size bin_count / bin_count = 4) as ->.
  { unfold hist_size, sizeof_int. rewrite (Nat.mul_comm bin_count 4).
    apply Nat.div_mul. lia. }
  apply take_scan_groups. rewrite HH. unfold hist_size, sizeof_int. lia.
Qed.

Lemma length_take_histogram bin_count (H : list Z) :
  length H = hist_size bin_count → length (take bin_count H) = bin_count.
Proof.
  intros HH. rewrite length_take, HH. unfold hist_size, sizeof_int. lia.
Qed.

(** C1. For every frequency histogram of [B] bins the scan stage yields
    the inclusive cumulative histogram: entry [i] is the sum of the bins
    [0..i]; the entries do not decrease and the last one is the pixel
    count. *)
Theorem cum_hist_inclusive_scan image_input bin_count ex m :
  created (size image_input) bin_count m →
  execution_of (size image_input) bin_count ex →
  frequency_histogram (size image_input) (take bin_count (int_histogram m)) →
  cum_hist_contract bin_count (size image_input) ex m.
Proof.
  intros Hm Hex Hfreq. unfold cum_hist_contract.
  rewrite (stage_cum_hist_eq image_input) by done.
  destruct Hm as (_ & _ & Hint & _). rewrite hist_buffer_ints_eq in Hint.
  set (histogram := take bin_count (int_histogram m)) in *.
  assert (length histogram = bin_count) as Hlen
    by (by apply length_take_histogram).
  eexists _, _. split; [reflexivity|].
  destruct (decide (bin_count = 0)) as [->|HB].
  { split_and!; [done| intros; lia | | intros; lia].
    intros i j x y _ Hx. by rewrite take_0 in Hx. }
  rewrite first_group_scan by (done || lia). fold histogram.
  assert (∀ i, i < bin_count →
               hs_scan histogram !! i = Some (psum histogram (S i))) as Hscan.
  { intros i Hi. apply (hs_scan_frequency _ _ _ Hfreq). lia. }
  split_and!.
  - by rewrite length_hs_scan.
  - done.
  - intros i j x y Hij Hx Hy.
    assert (j < bin_count) as Hj.
    { apply lookup_lt_Some in Hy. rewrite length_hs_scan in Hy. lia. }
    rewrite Hscan in Hx, Hy by lia. injection Hx as <-. injection Hy as <-.
    apply psum_mono; [apply Hfreq|lia].
  - intros _. rewrite Hscan by lia.
    replace (S (bin_count - 1)) with bin_count by lia.
    rewrite psum_all by lia. f_equal. apply Hfreq.
Qed.

Lemma created_fresh N bin_count junk : created N bin_count (fresh N bin_count junk).
Proof. unfold created, fresh. simpl. by rewrite !length_replicate. Qed.

Lemma execution_in_order N bin_count junk :
  execution_of N bin_count (in_order N bin_count junk).
Proof.
  unfold execution_of, in_order, schedule_of. simpl.
  by rewrite !length_replicate.
Qed.

Lemma execution_reversed N bin_count junk :
  execution_of N bin_count (reversed N bin_count junk).
Proof.
  unfold execution_of, reversed, schedule_of. simpl.
  rewrite !length_replicate. split_and!; try done;
    intros; apply reverse_Permutation.
Qed.

Lemma cum_hist_inclusive_scan_witness :
  cum_hist_contract 4 (size scenario) (in_order 8 4 7)
                    (at_stage scenario [2; 2; 2; 2]%Z [] [] (fresh 8 4 7)).
Proof.
  apply (cum_hist_inclusive_scan scenario 4).
  - vm_compute. by split_and!.
  - apply (execution_in_order 8 4).
  - unfold frequency_histogram. vm_compute. split_and!.
    + repeat constructor; discriminate.
    + reflexivity.
    + discriminate.
Defined.

(* ===================================================================== *)
(** * The histogram build stage *)
(* ===================================================================== *)

Section counting.
Local Open Scope Z_scope.

Lemma sum_Z_fmap_add {X} (f g : X → Z) l :
  sum_Z ((λ v, f v + g v) <$> l) = sum_Z (f <$> l) + sum_Z (g <$> l).
Proof.
  unfold sum_Z. induction l as [|x l IH]; [done|].
  rewrite !fmap_cons. cbn [foldr]. lia.
Qed.

Lemma sum_indicator (a : nat) n : ∀ s,
  sum_Z ((λ v, if decide (a = v) then 1 else 0) <$> seq s n) =
  if decide (s ≤ a < s + n)%nat then 1 else 0.
Proof.
  induction n as [|n IH]; intros s.
  - simpl. rewrite decide_False by lia. done.
  - rewrite <- cons_seq, fmap_cons. change (sum_Z (?x :: ?l)) with (x + sum_Z l).
    rewrite IH. repeat case_decide; lia.
Qed.

Lemma sum_counts bin_count pixels :
  Forall (λ p, (Z.to_nat p < bin_count)%nat) pixels →
  sum_Z ((λ v, Z.of_nat (count v pixels)) <$> seq 0 bin_count) =
  Z.of_nat (length pixels).
Proof.
  induction 1 as [|p pixels Hp _ IH].
  - induction (seq 0 bin_count) as [|v l IHl]; [done|].
    rewrite fmap_cons. change (sum_Z (?x :: ?l)) with (x + sum_Z l).
    rewrite IHl, count_nil. done.
  - rewrite (list_fmap_ext _
       (λ v, (if decide (Z.to_nat p = v) then 1 else 0)
             + Z.of_nat (count v pixels))).
    + rewrite sum_Z_fmap_add, IH, sum_indicator.
      rewrite decide_True by lia. simpl length. lia.
    + intros i v _. rewrite count_cons. case_decide; lia.
Qed.

End counting.

Lemma counted_zeroed pixels n :
  Forall (λ p, Z.to_nat p < n) pixels →
  (Z.of_nat (length pixels) ≤ INT_MAX)%Z →
  counted pixels (replicate n 0%Z) =
  Some ((λ v, Z.of_nat (count v pixels)) <$> seq 0 n).
Proof.
  intros Hall Hmax. unfold counted.
  rewrite decide_True by (by rewrite length_replicate). f_equal.
  apply list_eq. intros v.
  rewrite list_lookup_imap, list_lookup_fmap.
  destruct (decide (v < n)) as [Hv|Hv].
  - rewrite lookup_replicate_2, lookup_seq_lt by done. simpl. f_equal.
    apply incremented_zero. pose proof (count_le v pixels). lia.
  - rewrite lookup_seq_ge by lia.
    rewrite (proj1 (lookup_replicate_None _ _ _)) by lia. done.
Qed.




(* ===================================================================== *)
(** * The normalisation stage *)
(* ===================================================================== *)

Section normalisation.
Local Open Scope Z_scope.

Lemma int_div_nonneg a b :
  0 ≤ a ≤ INT_MAX → 0 < b → int_div a b = Some (Z.quot a b).
Proof.
  intros Ha Hb. unfold int_div. rewrite decide_False by lia. f_equal.
  apply int_wrap_id.
  pose proof (Z.quot_pos a b). pose proof (Z.quot_le_upper_bound a b a).
  unfold is_int, INT_MIN, INT_MAX in *. nia.
Qed.

Lemma int_div_Some a b : b ≠ 0 → is_Some (int_div a b).
Proof. intros. unfold int_div. rewrite decide_False by done. eauto. Qed.

Lemma divisor_positive (N bin_count : nat) :
  (0 < bin_count ≤ N)%nat →
  0 < Z.quot (Z.of_nat N) (Z.of_nat bin_count).
Proof. intros. apply Z.quot_str_pos. lia. Qed.

Lemma by_divisor_product (N bin_count : nat) c :
  (0 < bin_count)%nat → (bin_count | N)%nat → (0 < N)%nat → 0 ≤ c →
  by_divisor N bin_count c = by_product N bin_count c.
Proof.
  intros HB [k ->] HN Hc. unfold by_divisor, by_product.
  rewrite Nat2Z.inj_mul.
  rewrite Z.quot_mul by lia.
  rewrite Z.div_mul_cancel_r by lia.
  apply Z.quot_div_nonneg; lia.
Qed.

End normalisation.

Lemma norm_hist_contract_ext f g image_input bin_count ex m :
  (∀ i c, take bin_count (cum_histogram m) !! i = Some c → f c = g c) →
  norm_hist_contract f image_input bin_count ex m →
  norm_hist_contract g image_input bin_count ex m.
Proof.
  intros Hfg (m' & table & Hst & Hlen & Hlook & Hrange & Hmono).
  exists m', table. split_and!; try done.
  intros i c Hc. rewrite <- (Hfg i c Hc). by apply Hlook.
Qed.

(** The stage as the kernel's formula reads: each cumulative count is
    divided by [N / B], both divisions truncating. *)
Lemma norm_hist_by_divisor image_input bin_count ex m :
  created (size image_input) bin_count m →
  execution_of (size image_input) bin_count ex →
  Forall (λ c, (0 ≤ c ≤ INT_MAX)%Z) (take bin_count (cum_histogram m)) →
  non_decreasing (take bin_count (cum_histogram m)) →
  0 < bin_count ≤ size image_input →
  (Z.of_nat (size image_input) ≤ INT_MAX)%Z →
  norm_hist_contract (by_divisor (size image_input) bin_count)
                     image_input bin_count ex m.
Proof.
  intros Hm Hex Hcounts Hmono HB HN.
  set (N := size image_input) in *.
  set (d := Z.quot (Z.of_nat N) (Z.of_nat bin_count)).
  assert (0 < d)%Z as Hd by (by apply divisor_positive).
  pose proof Hm as (_ & _ & _ & Hcum & Hnorm).
  rewrite hist_buffer_ints_eq in Hcum, Hnorm.
  assert (bin_count ≤ hist_size bin_count) as Hfit
    by (unfold hist_size, sizeof_int; lia).
  unfold norm_hist_contract. rewrite stage_norm_hist_eq by done. fold N.
  set (g := λ id, clamp 0 255 (int_wrap (Z.quot (cum_histogram m !!! id) d))).
  rewrite (written_Some _ _ _ g); first last.
  { intros i Hi. unfold normalised, g.
    destruct (lookup_lt_is_Some_2 (cum_histogram m) i) as [x Hx]; [lia|].
    rewrite Hx, (list_lookup_total_correct _ _ _ Hx). simpl.
    rewrite !int_wrap_id
      by (unfold is_int, INT_MIN, INT_MAX in *; lia).
    rewrite int_div_nonneg by (unfold INT_MAX in *; lia). simpl.
    fold d. unfold int_div. rewrite decide_False by lia. done. }
  cbn [mbind option_bind]. eexists _, _. split; [reflexivity|].
  rewrite take_0, app_nil_l, drop_ge, app_nil_r
    by (simpl; lia).
  rewrite <- fmap_take, take_seq, Nat.min_l by done.
  assert (∀ i c, take bin_count (cum_histogram m) !! i = Some c →
            (g <$> seq 0 bin_count) !! i
            = Some (clamp 0 255 (by_divisor N bin_count c))) as Hlook.
  { intros i c Hc.
    pose proof (Forall_lookup_1 _ _ _ _ Hcounts Hc) as Hrange.
    simpl in Hrange.
    apply lookup_take_Some in Hc as [Hc Hi].
    rewrite list_lookup_fmap, lookup_seq_lt by done. simpl. unfold g.
    rewrite (list_lookup_total_correct _ _ _ Hc). do 2 f_equal.
    apply int_wrap_id. unfold by_divisor. fold N d.
    pose proof (Z.quot_pos c d). pose proof (Z.quot_le_upper_bound c d c).
    unfold is_int, INT_MIN, INT_MAX in *. nia. }
  split_and!.
  - by rewrite length_fmap, length_seq.
  - exact Hlook.
  - apply Forall_fmap, Forall_forall. intros i _. apply clamp_range.
  - intros i j x y Hij Hx Hy.
    assert (j < bin_count) as Hj.
    { apply lookup_lt_Some in Hy.
      by rewrite length_fmap, length_seq in Hy. }
    destruct (lookup_lt_is_Some_2 (take bin_count (cum_histogram m)) i)
      as [ci Hci]; [rewrite length_take; lia|].
    destruct (lookup_lt_is_Some_2 (take bin_count (cum_histogram m)) j)
      as [cj Hcj]; [rewrite length_take; lia|].
    rewrite (Hlook _ _ Hci) in Hx. rewrite (Hlook _ _ Hcj) in Hy.
    injection Hx as <-. injection Hy as <-.
    apply clamp_mono. unfold by_divisor. fold d.
    apply Z.quot_le_mono; [lia|]. exact (Hmono i j ci cj Hij Hci Hcj).
Qed.

(** C3. For every cumulative histogram (counts in [0, INT_MAX] that do
    not decrease), every pixel count [N > 0] and every bin count [B > 0]
    the stage can be reached with, [B] dividing [N] as the dispatch of
    [int_hist] over [N] work-items in groups of [B] requires (line 123),
    the normalisation stage yields a table of [B] entries with
    [table[i] = floor(cumulative[i] * B / N)], which is also
    [cumulative[i] / (N / B)], clamped to [0, 255]; the table does not
    decrease. *)
Theorem norm_hist_divides_by_occupancy image_input bin_count ex m :
  created (size image_input) bin_count m →
  execution_of (size image_input) bin_count ex →
  Forall (λ c, (0 ≤ c ≤ INT_MAX)%Z) (take bin_count (cum_histogram m)) →
  non_decreasing (take bin_count (cum_histogram m)) →
  0 < size image_input →
  0 < bin_count →
  (bin_count | size image_input) →
  (Z.of_nat (size image_input) ≤ INT_MAX)%Z →
  norm_hist_contract (by_product (size image_input) bin_count)
                     image_input bin_count ex m ∧
  norm_hist_contract (by_divisor (size image_input) bin_count)
                     image_input bin_count ex m.
Proof.
  intros Hm Hex Hcounts Hmono HN HB Hdivides Hmax.
  assert (bin_count ≤ size image_input) as Hle.
  { destruct Hdivides as [k Hk]. destruct k; nia. }
  pose proof (norm_hist_by_divisor image_input bin_count ex m Hm Hex Hcounts
                Hmono (conj HB Hle) Hmax) as Hdiv.
  split; [|exact Hdiv].
  eapply norm_hist_contract_ext; [|exact Hdiv].
  intros i c Hc. apply by_divisor_product; try done.
  pose proof (Forall_lookup_1 _ _ _ _ Hcounts Hc) as Hrange.
  simpl in Hrange. lia.
Qed.

Lemma non_decreasing_lookup (l : list Z) :
  (∀ i x y, l !! i = Some x → l !! S i = Some y → (x ≤ y)%Z) →
  non_decreasing l.
Proof.
  intros Hadj i j x y Hij. revert y. induction Hij as [|j Hij IH].
  - intros y Hx Hy. rewrite Hx in Hy. injection Hy as <-. lia.
  - intros y Hx Hy.
    destruct (lookup_lt_is_Some_2 l j) as [z Hz].
    { apply lookup_lt_Some in Hy. lia. }
    specialize (IH z Hx Hz). specialize (Hadj j z y Hz Hy). lia.
Qed.

Lemma norm_hist_divides_by_occupancy_witness :
  norm_hist_contract (by_product (size scenario) 4) scenario 4
    (reversed 8 4 7) (at_stage scenario [] [2; 4; 6; 8]%Z [] (fresh 8 4 7)) ∧
  norm_hist_contract (by_divisor (size scenario) 4) scenario 4
    (reversed 8 4 7) (at_stage scenario [] [2; 4; 6; 8]%Z [] (fresh 8 4 7)).
Proof.
  apply (norm_hist_divides_by_occupancy scenario 4 (reversed 8 4 7)
           (at_stage scenario [] [2; 4; 6; 8]%Z [] (fresh 8 4 7))).
  - vm_compute. by split_and!.
  - apply (execution_reversed 8 4).
  - simpl. unfold INT_MAX. repeat constructor; lia.
  - apply non_decreasing_lookup. intros [|[|[|[|i]]]] x y Hx Hy;
      vm_compute in Hx, Hy; try discriminate;
      injection Hx as <-; injection Hy as <-; lia.
  - vm_compute. lia.
  - lia.
  - exists 2. reflexivity.
  - vm_compute. discriminate.
Defined.

(* ===================================================================== *)
(** * The back-projection stage *)
(* ===================================================================== *)




(* ===================================================================== *)
(** * The whole pipeline *)
(* ===================================================================== *)

(** Once the bins are at zero when the run starts, the eight pixels
    [0,0,1,1,2,2,3,3] and four bins give the frequency histogram
    [2,2,2,2], the cumulative histogram [2,4,6,8], the table [1,2,3,4]
    and the output in which every pixel is replaced by its table entry,
    whatever the order of the work-items. *)
Lemma pipeline_scenario ex m :
  created 8 4 m → zeroed m → execution_of 8 4 ex →
  snd <$> pipeline scenario 4 ex m =
  Some (mkBuffers [2; 2; 2; 2]%Z [2; 4; 6; 8]%Z [1; 2; 3; 4]%Z
                  [1; 1; 2; 2; 3; 3; 4; 4]%Z).
Proof.
  intros Hm Hzero Hex.
  rewrite pipeline_eq; [| |exact Hm|exact Hex].
  - rewrite (equalised_memory scenario 4 m (fresh 8 4 0)).
    + vm_compute. reflexivity.
    + exact Hm.
    + apply (created_fresh 8 4).
    + destruct Hm as (_ & _ & Hint & _).
      by rewrite (zeroed_replicate _ _ Hzero Hint).
  - split; [reflexivity|]. simpl. unfold is_uchar. repeat constructor; lia.
Qed.

Lemma pipeline_scenario_witness :
  snd <$> pipeline scenario 4 (reversed 8 4 7) (fresh 8 4 7) =
  Some (mkBuffers [2; 2; 2; 2]%Z [2; 4; 6; 8]%Z [1; 2; 3; 4]%Z
                  [1; 1; 2; 2; 3; 3; 4; 4]%Z).
Proof.
  apply pipeline_scenario.
  - apply (created_fresh 8 4).
  - unfold zeroed. simpl. repeat constructor.
  - apply (execution_reversed 8 4).
Defined.

(** Once the bins are at zero when either run starts, two runs of the
    pipeline on the same image with the same bin count agree, whatever
    the order of the work-items in either run and whatever the other
    buffers and the local memory held. *)
Lemma pipeline_deterministic image_input bin_count ex1 ex2 m1 m2 :
  CImg_wf image_input →
  created (size image_input) bin_count m1 →
  created (size image_input) bin_count m2 →
  zeroed m1 → zeroed m2 →
  execution_of (size image_input) bin_count ex1 →
  execution_of (size image_input) bin_count ex2 →
  pipeline image_input bin_count ex1 m1 =
  pipeline image_input bin_count ex2 m2.
Proof.
  intros Hwf Hm1 Hm2 Hz1 Hz2 Hex1 Hex2.
  rewrite !pipeline_eq by done.
  apply equalised_memory; [done..|].
  pose proof Hm1 as (_ & _ & Hint1 & _).
  pose proof Hm2 as (_ & _ & Hint2 & _).
  by rewrite (zeroed_replicate _ _ Hz1 Hint1), (zeroed_replicate _ _ Hz2 Hint2).
Qed.

Lemma pipeline_deterministic_witness :
  pipeline scenario 4 (in_order 8 4 7) (fresh 8 4 7) =
  pipeline scenario 4 (reversed 8 4 9) (fresh 8 4 9).
Proof.
  apply pipeline_deterministic.
  - split; [reflexivity|]. simpl. unfold is_uchar. repeat constructor; lia.
  - apply (created_fresh 8 4).
  - apply (created_fresh 8 4).
  - unfold zeroed. simpl. repeat constructor.
  - unfold zeroed. simpl. repeat constructor.
  - apply (execution_in_order 8 4).
  - apply (execution_reversed 8 4).
Defined.

(* ===================================================================== *)
(** * The bins [main] never fills *)
(* ===================================================================== *)

Lemma scenario_wf : CImg_wf scenario.
Proof.
  split; [reflexivity|]. simpl. unfold is_uchar. repeat constructor; lia.
Qed.

Lemma created_unfilled N bin_count junk :
  created N bin_count (unfilled N bin_count junk).
Proof. unfold created, unfilled. simpl. by rewrite !length_replicate. Qed.

(** What the four stages make of the scenario when every bin holds
    [junk] at the start. *)
Lemma scenario_unfilled ex junk :
  execution_of 8 4 ex →
  pipeline scenario 4 ex (unfilled 8 4 junk) =
  equalised scenario 4 (unfilled 8 4 junk).
Proof.
  intros Hex. apply pipeline_eq; [apply scenario_wf| |exact Hex].
  apply (created_unfilled 8 4).
Qed.

(** C5. [main] creates [int_histogram] (line 102) and dispatches
    [int_hist] on it (line 123) without filling it, though the kernel
    "assumes the bins are initialised at zero" (header comment).  On a
    device that hands out the buffer with 1 in every int, the scenario
    of eight pixels and four bins gives, in every order of the
    work-items, the frequency histogram [3,3,3,3], the cumulative
    histogram [3,6,9,12], the table [1,3,4,6] and the output
    [1,1,3,3,4,4,6,6]; the run of [main] finishes, shows that output and
    prints no diagnostic. *)
Theorem scenario_on_unfilled_bins :
  (∀ ex, execution_of 8 4 ex →
     snd <$> pipeline scenario 4 ex (unfilled 8 4 1) =
     Some (mkBuffers [3; 3; 3; 3]%Z [3; 6; 9; 12]%Z [1; 3; 4; 6]%Z
                     [1; 1; 3; 3; 4; 4; 6; 6]%Z)) ∧
  cin (unfilled_device 1 4 scenario) = 4%Z ∧
  load (unfilled_device 1 4 scenario) "test.pgm" = inr scenario ∧
  fst (main (unfilled_device 1 4 scenario) "test.pgm") = Finished ∧
  window "output" (Some (mkCImg 4 2 1 1 [1; 1; 3; 3; 4; 4; 6; 6]%Z))
    ∈ console (snd (main (unfilled_device 1 4 scenario) "test.pgm")) ∧
  ¬ prints_diagnostic (snd (main (unfilled_device 1 4 scenario) "test.pgm")).
Proof.
  assert (console (snd (main (unfilled_device 1 4 scenario) "test.pgm")) =
          [cout "Enter number of bins - 256 for 8-bit image";
           window "input" (Some scenario);
           cout "Runing on platform, device";
           cout_value "Kernel execution time [ns]:" 150;
           cout_value "Memory transfer:" 600;
           cout "";
           window "output"
             (Some (mkCImg 4 2 1 1 [1; 1; 3; 3; 4; 4; 6; 6]%Z))])
    as Hconsole by (vm_compute; reflexivity).
  split_and!.
  - intros ex Hex. rewrite scenario_unfilled by done. vm_compute. reflexivity.
  - reflexivity.
  - reflexivity.
  - vm_compute. reflexivity.
  - rewrite Hconsole. do 6 apply list_elem_of_further. apply list_elem_of_here.
  - intros (text & Hin & _). rewrite Hconsole in Hin.
    repeat (apply elem_of_cons in Hin as [Hin|Hin]; [discriminate Hin|]).
    by apply elem_of_nil in Hin.
Qed.

(** C6. Two runs of [main] on the same image with the same bin count
    need not agree: the bins are never filled, so the output follows what
    the device hands out.  On the scenario with four bins, a device whose
    new buffers hold 0 and one whose new buffers hold 1 both finish the
    run, with the same four dispatches, and show different output
    images; the outputs of the four stages differ in every order of the
    work-items. *)
Theorem runs_differ_on_unfilled_bins :
  cin (unfilled_device 0 4 scenario) = cin (unfilled_device 1 4 scenario) ∧
  load (unfilled_device 0 4 scenario) "test.pgm" =
    load (unfilled_device 1 4 scenario) "test.pgm" ∧
  fst (main (unfilled_device 0 4 scenario) "test.pgm") = Finished ∧
  fst (main (unfilled_device 1 4 scenario) "test.pgm") = Finished ∧
  dispatched (snd (main (unfilled_device 0 4 scenario) "test.pgm")) =
    dispatched (snd (main (unfilled_device 1 4 scenario) "test.pgm")) ∧
  window "output" (Some (mkCImg 4 2 1 1 [1; 1; 2; 2; 3; 3; 4; 4]%Z))
    ∈ console (snd (main (unfilled_device 0 4 scenario) "test.pgm")) ∧
  window "output" (Some (mkCImg 4 2 1 1 [1; 1; 3; 3; 4; 4; 6; 6]%Z))
    ∈ console (snd (main (unfilled_device 1 4 scenario) "test.pgm")) ∧
  (∀ ex0 ex1, execution_of 8 4 ex0 → execution_of 8 4 ex1 →
     output_buffer <$> (snd <$> pipeline scenario 4 ex0 (unfilled 8 4 0)) =
       Some [1; 1; 2; 2; 3; 3; 4; 4]%Z ∧
     output_buffer <$> (snd <$> pipeline scenario 4 ex1 (unfilled 8 4 1)) =
       Some [1; 1; 3; 3; 4; 4; 6; 6]%Z).
Proof.
  split_and!.
  - reflexivity.
  - reflexivity.
  - vm_compute. reflexivity.
  - vm_compute. reflexivity.
  - vm_compute. reflexivity.
  - apply (list_elem_of_lookup_2 _ 6). vm_compute. reflexivity.
  - apply (list_elem_of_lookup_2 _ 6). vm_compute. reflexivity.
  - intros ex0 ex1 Hex0 Hex1. rewrite !scenario_unfilled by done.
    split; vm_compute; reflexivity.
Qed.

(* ===================================================================== *)
(** * Runs of [main] *)
(* ===================================================================== *)

Lemma cl_ok env c w :
  status env c = CL_SUCCESS → cl env c w = (inr (), w).
Proof. intros H. unfold cl. by rewrite decide_True. Qed.

Lemma cl_fail env c w :
  status env c ≠ CL_SUCCESS →
  cl env c w = (inl (cl_Error (what_of c) (status env c)), w).
Proof. intros H. unfold cl. by rewrite decide_False. Qed.

Lemma prefix_append s t : String.prefix s (s +:+ t) = true.
Proof.
  induction s as [|a s IH]; simpl; [by destruct t|].
  destruct (Ascii.ascii_dec a a); [exact IH|done].
Qed.

(** The commands of a run in which no call fails act on the device as
    [pipeline] does. *)
Lemma device_path image_input bin_count ex m :
  output_image image_input <$>
    (snd <$>
      (fst <$>
        (fst <$>
          (fst <$>
            (fst <$>
              (fst <$>
                (fst <$>
                  (fst <$> image_written image_input m)
                  ≫= image_written image_input)
                ≫= image_written image_input)
              ≫= image_written image_input)
            ≫= stage_int_hist bin_count ex)
          ≫= stage_cum_hist bin_count ex)
        ≫= stage_norm_hist image_input bin_count ex)
      ≫= stage_back_project image_input ex)
  = equalised_image image_input bin_count ex m.
Proof.
  unfold equalised_image, pipeline, upload, image_written.
  destruct (write_buffer _ _ (dev_image_input m)) as [i1|]; [|done].
  cbn [mbind option_bind fmap option_fmap option_map fst snd dev_image_input].
  destruct (write_buffer _ _ i1) as [i2|]; [|done].
  cbn [mbind option_bind fmap option_fmap option_map fst snd dev_image_input].
  destruct (write_buffer _ _ i2) as [i3|]; [|done].
  cbn [mbind option_bind fmap option_fmap option_map fst snd dev_image_input].
  destruct (write_buffer _ _ i3) as [i4|]; [|done].
  cbn [mbind option_bind fmap option_fmap option_map fst snd dev_image_input
       dev_image_output int_histogram cum_histogram norm_histogram].
  destruct (stage_int_hist _ _ _) as [[m1 b1]|]; [|done].
  cbn [mbind option_bind fmap option_fmap option_map fst snd].
  destruct (stage_cum_hist _ _ _) as [[m2 b2]|]; [|done].
  cbn [mbind option_bind fmap option_fmap option_map fst snd].
  destruct (stage_norm_hist _ _ _ _) as [[m3 b3]|]; [|done].
  cbn [mbind option_bind fmap option_fmap option_map fst snd].
  destruct (stage_back_project _ _ _) as [[m4 b4]|]; done.
Qed.

#[local] Opaque cl stage_int_hist stage_cum_hist stage_norm_hist
  stage_back_project image_written hist_size int_wrap ulong_sub ulong_add
  String.append.

(** One step of a run: the next call either succeeds or throws. *)
Ltac next_call :=
  match goal with
  | |- context [cl ?env ?c ?w] =>
      lazymatch goal with
      | H : status env c = CL_SUCCESS |- _ => rewrite (cl_ok env c w H)
      | _ =>
          let H := fresh "Hcall" in
          destruct (decide (status env c = CL_SUCCESS)) as [H|H];
          [rewrite (cl_ok env c w H) | rewrite (cl_fail env c w H)]
      end;
      cbn
  end.

Ltac call_succeeds Hall :=
  match goal with
  | |- context [cl ?env ?c ?w] =>
      rewrite (cl_ok env c w)
        by (apply Hall; apply (bool_decide_unpack _); vm_compute; exact I);
      cbn
  end.

Ltac unfold_run :=
  unfold main, main_try, start, create_buffers, write_image, dispatch,
    COMMAND_END, COMMAND_START, CImg_load, CImgDisplay, vector,
    try_catch_cl, on_device, print, bind, ret, throw;
  cbn [set_args]; unfold bind, ret.

Ltac start_run env image_filename :=
  unfold_run;
  destruct (load env image_filename) as [what|image_input] eqn:Hload;
  [|destruct (display env "input") as [what|] eqn:Hinput;
    [|destruct (decide (cin env < 0)%Z) as [Hneg|Hpos]]];
  cbn.

Ltac no_window H :=
  repeat (apply elem_of_cons in H as [H|H];
          [first [discriminate H | injection H; discriminate]|]);
  by apply elem_of_nil in H.

Lemma run_all_succeed env image_filename image_input :
  load env image_filename = inr image_input →
  (0 ≤ cin env)%Z → all_succeed env →
  let B := Z.to_nat (cin env) in
  let event := profile env (enqueueNDRangeKernel "back_project") in
  fst (main env image_filename) = Finished ∧
  console (snd (main env image_filename)) =
    [cout "Enter number of bins - 256 for 8-bit image";
     window "input" (Some image_input);
     cout ("Runing on " +:+ platform_name env +:+ ", " +:+ device_name env);
     cout_value "Kernel execution time [ns]:"
       (ulong_sub (snd event) (fst event));
     cout_value "Memory transfer:"
       (ulong_sub (ulong_add (ulong_sub (ulong_add (ulong_sub (ulong_add
          (ulong_sub (snd event) (fst event)) (snd event)) (fst event))
          (snd event)) (fst event)) (snd event)) (fst event));
     cout (full_profiling_info env event);
     window "output"
       (equalised_image image_input B (execution env) (memory env))] ∧
  dispatched (snd (main env image_filename)) =
    [mkLaunch "int_hist" (size image_input) B [];
     mkLaunch "cum_hist" (hist_size B) B [];
     mkLaunch "norm_hist" (hist_size B) B
       [int_wrap (Z.of_nat (size image_input)); int_wrap (Z.of_nat B)];
     mkLaunch "back_project" (size image_input) B []].
Proof.
  intros Hload Hpos (Hall & Hinput & Houtput). unfold_run.
  rewrite Hload, Hinput, decide_False by lia. cbn.
  repeat call_succeeds Hall.
  rewrite Houtput. cbn. rewrite device_path. split_and!; reflexivity.
Qed.

Ltac caught_leaf :=
  split;
  [ intros ? _; split;
    [ intros [? Hin]; no_window Hin
    | eexists; split;
      [ repeat first [apply list_elem_of_here | apply list_elem_of_further]
      | apply prefix_append ] ]
  | intros _ _; eauto ].

Ltac steps leaf :=
  repeat
    match goal with
    | |- context [cl ?env ?c ?w] =>
        lazymatch goal with
        | H : status env c = CL_SUCCESS |- _ =>
            rewrite (cl_ok env c w H); cbn
        | _ =>
            let H := fresh "Hcall" in
            destruct (decide (status env c = CL_SUCCESS)) as [H|H];
            [ rewrite (cl_ok env c w H); cbn
            | rewrite (cl_fail env c w H); cbn; solve [leaf] ]
        end
    end.

(** C9. A run in which a stage fails, so that one of the two handlers of
    [main] runs, shows no output image and prints a diagnostic; and with
    a bin count that is not negative every failing stage (image load,
    window, build or any other OpenCL call) ends the run in a handler. *)
Theorem main_failure_reported env image_filename :
  (∀ e, fst (main env image_filename) = Caught e →
        ¬ shows_output (snd (main env image_filename)) ∧
        prints_diagnostic (snd (main env image_filename))) ∧
  ((0 ≤ cin env)%Z → stage_fails env image_filename →
   ∃ e, fst (main env image_filename) = Caught e).
Proof.
  start_run env image_filename.
  - caught_leaf.
  - caught_leaf.
  - split; [intros e He; discriminate He|intros; lia].
  - steps caught_leaf.
    destruct (display env "output") as [what|] eqn:Houtput; cbn.
    + caught_leaf.
    + split; [intros e He; discriminate He|].
      intros _ [[what Hw]|[[what Hw]|[(c & Hc & Hst)|[what Hw]]]];
        try congruence.
      assert (Forall (λ c, status env c = CL_SUCCESS) calls) as Hall.
      { unfold calls.
        repeat (constructor; [assumption|]). constructor. }
      rewrite Forall_forall in Hall. by specialize (Hall c Hc).
Qed.

Lemma main_failure_reported_witness :
  (¬ shows_output (snd (main (failing build (-11) 256 scenario) "test.pgm")) ∧
   prints_diagnostic
     (snd (main (failing build (-11) 256 scenario) "test.pgm"))) ∧
  (∃ e, fst (main (failing build (-11) 256 scenario) "test.pgm") = Caught e).
Proof.
  split.
  - apply (proj1 (main_failure_reported (failing build (-11) 256 scenario)
                                        "test.pgm")
                 (cl_Error "clBuildProgram" (-11))).
    vm_compute. reflexivity.
  - apply (proj2 (main_failure_reported (failing build (-11) 256 scenario)
                                        "test.pgm")).
    + simpl. lia.
    + right. right. left. exists build. split.
      * unfold calls. do 5 apply list_elem_of_further. apply list_elem_of_here.
      * vm_compute. discriminate.
Defined.

Ltac diagnostic :=
  eexists; split;
  [ repeat first [apply list_elem_of_here | apply list_elem_of_further]
  | apply prefix_append ].

Ltac all_calls_succeeded :=
  repeat (constructor; [assumption|]); constructor.

(* ===================================================================== *)
(** * Runs that end before the first dispatch *)
(* ===================================================================== *)

Lemma all_succeed_succeeding B image : all_succeed (succeeding B image).
Proof. by split_and!. Qed.

Ltac stopped_leaf :=
  intros _; split_and!;
  [ reflexivity
  | discriminate
  | intros [? Hin]; no_window Hin
  | first [ intros; lia
          | intros _; eexists; split; [reflexivity|diagnostic] ] ].

(** A run in which the image does not load, the input window does not
    open, the bin count is negative or a call made before the first
    dispatch fails: nothing is dispatched, the run does not finish and
    shows no output; with a bin count that is not negative it ends in a
    handler, which prints its diagnostic. *)
Lemma stopped_before_dispatch env image_filename :
  (∃ what, load env image_filename = inl what) ∨
  is_Some (display env "input") ∨
  (cin env < 0)%Z ∨
  (∃ c, c ∈ calls_before_dispatch ∧ status env c ≠ CL_SUCCESS) →
  dispatched (snd (main env image_filename)) = [] ∧
  fst (main env image_filename) ≠ Finished ∧
  ¬ shows_output (snd (main env image_filename)) ∧
  ((0 ≤ cin env)%Z →
   ∃ e, fst (main env image_filename) = Caught e ∧
        prints_diagnostic (snd (main env image_filename))).
Proof.
  start_run env image_filename.
  - stopped_leaf.
  - stopped_leaf.
  - stopped_leaf.
  - steps stopped_leaf.
    intros [[what Hw]|[[what Hw]|[Hlt|(c & Hc & Hst)]]];
      [discriminate Hw|discriminate Hw|lia|].
    exfalso.
    assert (Forall (λ c, status env c = CL_SUCCESS) calls_before_dispatch)
      as Hall.
    { unfold calls_before_dispatch, calls. cbn [take].
      all_calls_succeeded. }
    rewrite Forall_forall in Hall. by specialize (Hall c Hc).
Qed.

Lemma refused_buffer env image_input name :
  refuses_empty_buffers env image_input →
  buffer_bytes image_input (Z.to_nat (cin env)) name = 0 →
  status env (Buffer name) ≠ CL_SUCCESS.
Proof. intros Hrefuse Hbytes. by rewrite (Hrefuse name Hbytes). Qed.

(* ===================================================================== *)
(** * The empty image *)
(* ===================================================================== *)

(** C7. For every image of size 0 the run raises an error before any
    kernel is dispatched, so that [norm_hist] is never reached with the
    image size 0: the first buffer [main] creates has the size of the
    image (line 100), and [clCreateBuffer] refuses a size of 0 bytes.
    Nothing is dispatched, the run does not finish and shows no output;
    with a bin count that is not negative it ends in the handler of
    [cl::Error] or [CImgException], which prints its diagnostic. *)
Theorem empty_image_refused env image_filename image_input :
  load env image_filename = inr image_input →
  size image_input = 0 →
  refuses_empty_buffers env image_input →
  dispatched (snd (main env image_filename)) = [] ∧
  fst (main env image_filename) ≠ Finished ∧
  ¬ shows_output (snd (main env image_filename)) ∧
  ((0 ≤ cin env)%Z →
   ∃ e, fst (main env image_filename) = Caught e ∧
        prints_diagnostic (snd (main env image_filename))).
Proof.
  intros Hload Hsize Hrefuse. apply stopped_before_dispatch.
  do 3 right. exists (Buffer "dev_image_input"). split.
  - unfold calls_before_dispatch, calls. cbn [take].
    do 6 apply list_elem_of_further. apply list_elem_of_here.
  - apply (refused_buffer env image_input); [exact Hrefuse|].
    unfold buffer_bytes. rewrite decide_True by (by left). exact Hsize.
Qed.

Lemma refuses_conforming B image :
  refuses_empty_buffers (conforming B image) image.
Proof.
  intros name Hbytes. unfold conforming. cbn [status cin] in *.
  by rewrite decide_True.
Qed.

Lemma empty_image_refused_witness :
  dispatched (snd (main (conforming 256 empty_image) "test.pgm")) = [] ∧
  fst (main (conforming 256 empty_image) "test.pgm") ≠ Finished ∧
  ¬ shows_output (snd (main (conforming 256 empty_image) "test.pgm")) ∧
  ((0 ≤ cin (conforming 256 empty_image))%Z →
   ∃ e, fst (main (conforming 256 empty_image) "test.pgm") = Caught e ∧
        prints_diagnostic
          (snd (main (conforming 256 empty_image) "test.pgm"))).
Proof.
  apply (empty_image_refused (conforming 256 empty_image) "test.pgm"
           empty_image).
  - reflexivity.
  - reflexivity.
  - apply refuses_conforming.
Defined.

(* ===================================================================== *)
(** * The bin count *)
(* ===================================================================== *)

(** C8, amended. A bin count that is not positive ends the run in an
    error before any stage is dispatched, and no output is shown: a
    negative count by the vector constructor, the count 0 by the refusal
    of a histogram buffer of 0 bytes (lines 64, 102).  A bin count above
    256 is not rejected: when the image loads and no call fails, every
    positive count is accepted and the four stages are dispatched with
    that count as local size. *)
Theorem bin_count_unchecked env image_filename :
  (∀ image_input, load env image_filename = inr image_input →
                  refuses_empty_buffers env image_input) →
  ((cin env ≤ 0)%Z →
   dispatched (snd (main env image_filename)) = [] ∧
   fst (main env image_filename) ≠ Finished ∧
   ¬ shows_output (snd (main env image_filename))) ∧
  (∀ image_input,
     load env image_filename = inr image_input →
     (0 < cin env)%Z → all_succeed env →
     fst (main env image_filename) = Finished ∧
     (λ l, (kernel l, local l)) <$> dispatched (snd (main env image_filename))
     = [("int_hist", Z.to_nat (cin env)); ("cum_hist", Z.to_nat (cin env));
        ("norm_hist", Z.to_nat (cin env));
        ("back_project", Z.to_nat (cin env))]).
Proof.
  intros Hrefuse. split.
  - intros Hle.
    assert ((∃ what, load env image_filename = inl what) ∨
            is_Some (display env "input") ∨
            (cin env < 0)%Z ∨
            (∃ c, c ∈ calls_before_dispatch ∧ status env c ≠ CL_SUCCESS))
      as Hstop.
    { destruct (load env image_filename) as [what|image_input] eqn:Hload;
        [left; by exists what|].
      destruct (decide (cin env < 0)%Z) as [Hneg|Hzero]; [by do 2 right; left|].
      do 3 right. exists (Buffer "int_histogram"). split.
      - unfold calls_before_dispatch, calls. cbn [take].
        do 8 apply list_elem_of_further. apply list_elem_of_here.
      - apply (refused_buffer env image_input); [by apply Hrefuse|].
        unfold buffer_bytes. rewrite decide_False by (by intros [[=]|[=]]).
        replace (cin env) with 0%Z by lia. reflexivity. }
    destruct (stopped_before_dispatch env image_filename Hstop)
      as (Hnone & Hend & Hshow & _).
    by split_and!.
  - intros image_input Hload Hpos Hall.
    destruct (run_all_succeed env image_filename image_input Hload
                ltac:(lia) Hall) as (Hfst & _ & Hdisp).
    split; [exact Hfst|]. rewrite Hdisp. reflexivity.
Qed.

Lemma conforming_refuses B image image_filename image_input :
  load (conforming B image) image_filename = inr image_input →
  refuses_empty_buffers (conforming B image) image_input.
Proof. intros [= <-]. apply refuses_conforming. Qed.

Lemma succeeding_refuses B image image_filename image_input :
  0 < size image → (0 < B)%Z →
  load (succeeding B image) image_filename = inr image_input →
  refuses_empty_buffers (succeeding B image) image_input.
Proof.
  intros Hsize HB [= <-] name. unfold buffer_bytes. cbn [cin succeeding].
  pose proof (hist_buffer_bytes_pos (Z.to_nat B) ltac:(lia)).
  case_decide; lia.
Qed.

Lemma bin_count_unchecked_witness :
  (dispatched (snd (main (conforming 0 scenario) "test.pgm")) = [] ∧
   fst (main (conforming 0 scenario) "test.pgm") ≠ Finished ∧
   ¬ shows_output (snd (main (conforming 0 scenario) "test.pgm"))) ∧
  (dispatched (snd (main (conforming (-1) scenario) "test.pgm")) = [] ∧
   fst (main (conforming (-1) scenario) "test.pgm") ≠ Finished ∧
   ¬ shows_output (snd (main (conforming (-1) scenario) "test.pgm"))) ∧
  (fst (main (succeeding 512 flat_512) "test.pgm") = Finished ∧
   (λ l, (kernel l, local l))
     <$> dispatched (snd (main (succeeding 512 flat_512) "test.pgm"))
   = [("int_hist", 512); ("cum_hist", 512); ("norm_hist", 512);
      ("back_project", 512)]).
Proof.
  split; [|split].
  - apply (proj1 (bin_count_unchecked (conforming 0 scenario) "test.pgm"
                    (conforming_refuses 0 scenario "test.pgm"))).
    simpl. lia.
  - apply (proj1 (bin_count_unchecked (conforming (-1) scenario) "test.pgm"
                    (conforming_refuses (-1) scenario "test.pgm"))).
    simpl. lia.
  - apply (proj2 (bin_count_unchecked (succeeding 512 flat_512) "test.pgm"
                    (λ image_input,
                       succeeding_refuses 512 flat_512 "test.pgm" image_input
                         ltac:(vm_compute; lia) ltac:(lia))) flat_512).
    + reflexivity.
    + simpl. lia.
    + apply all_succeed_succeeding.
Defined.

(** C8 as stated fails: the bin count 512 is not rejected; with an image
    of 512 pixels and no failing call the run finishes, the four stages
    dispatched with local size 512, and no diagnostic is printed. *)
Lemma bin_count_512_accepted :
  fst (main (succeeding 512 flat_512) "test.pgm") = Finished ∧
  (λ l, (kernel l, local l))
    <$> dispatched (snd (main (succeeding 512 flat_512) "test.pgm"))
  = [("int_hist", 512); ("cum_hist", 512); ("norm_hist", 512);
     ("back_project", 512)] ∧
  ¬ prints_diagnostic (snd (main (succeeding 512 flat_512) "test.pgm")).
Proof.
  destruct (run_all_succeed (succeeding 512 flat_512) "test.pgm" flat_512)
    as (Hfst & Hconsole & Hdisp);
    [reflexivity|simpl; lia|apply all_succeed_succeeding|].
  split_and!.
  - exact Hfst.
  - rewrite Hdisp. reflexivity.
  - intros (text & Hin & _). rewrite Hconsole in Hin.
    repeat (apply elem_of_cons in Hin as [Hin|Hin]; [discriminate Hin|]).
    by apply elem_of_nil in Hin.
Qed.

(* ===================================================================== *)
(** * The profiling figures *)
(* ===================================================================== *)

Section profiling.
Local Open Scope Z_scope.
#[local] Transparent ulong_sub ulong_add.

Lemma memory_transfer_figure e s :
  ulong_sub (ulong_add (ulong_sub (ulong_add (ulong_sub (ulong_add
    (ulong_sub e s) e) s) e) s) e) s =
  ulong_wrap (4 * ulong_sub e s).
Proof.
  assert (∀ x, ulong_sub (ulong_add (ulong_wrap x) e) s
               = ulong_wrap (x + e - s)) as Hstep.
  { intros x. unfold ulong_sub, ulong_add, ulong_wrap.
    by rewrite Zplus_mod_idemp_l, Zminus_mod_idemp_l. }
  change (ulong_sub e s) with (ulong_wrap (e - s)).
  rewrite !Hstep. unfold ulong_wrap.
  rewrite Z.mul_mod_idemp_r by lia. f_equal. lia.
Qed.

Lemma duration_exact e s :
  s ≤ e < s + 2 ^ 62 →
  ulong_sub e s = e - s ∧ ulong_wrap (4 * ulong_sub e s) = 4 * (e - s).
Proof.
  intros H. unfold ulong_sub, ulong_wrap.
  rewrite (Z.mod_small (e - s)) by lia.
  split; [done|]. apply Z.mod_small. lia.
Qed.

End profiling.

Ltac figures H :=
  repeat (apply elem_of_cons in H as [H|H];
          [ first
              [ discriminate H
              | injection H as -> ->;
                first [ left; split; reflexivity
                      | right; split;
                        [reflexivity|apply memory_transfer_figure] ] ]
          | ]);
  by apply elem_of_nil in H.

(** C10. In every run, whatever was printed as kernel execution time is
    the duration of the last dispatch, that of [back_project], and
    whatever was printed as memory transfer is four times that duration
    in [cl_ulong] arithmetic; a run in which no call fails prints both;
    neither figure depends on the events of the buffer writes. *)
Theorem profiling_reports_last_dispatch env image_filename :
  let event := profile env (enqueueNDRangeKernel "back_project") in
  let duration := ulong_sub (snd event) (fst event) in
  (∀ label value,
     cout_value label value ∈ console (snd (main env image_filename)) →
     (label = "Kernel execution time [ns]:" ∧ value = duration) ∨
     (label = "Memory transfer:" ∧ value = ulong_wrap (4 * duration))) ∧
  (∀ image_input,
     load env image_filename = inr image_input →
     (0 ≤ cin env)%Z → all_succeed env →
     cout_value "Kernel execution time [ns]:" duration
       ∈ console (snd (main env image_filename)) ∧
     cout_value "Memory transfer:" (ulong_wrap (4 * duration))
       ∈ console (snd (main env image_filename))) ∧
  ((fst event ≤ snd event < fst event + 2 ^ 62)%Z →
   duration = (snd event - fst event)%Z ∧
   ulong_wrap (4 * duration) = (4 * (snd event - fst event))%Z).
Proof.
  intros event duration. split_and!.
  - intros label value. subst event duration.
    start_run env image_filename.
    + intros Hin. figures Hin.
    + intros Hin. figures Hin.
    + intros Hin. figures Hin.
    + steps ltac:(intros Hin; figures Hin).
      destruct (display env "output") as [what|] eqn:Houtput; cbn;
        intros Hin; figures Hin.
  - intros image_input Hload Hpos Hall.
    destruct (run_all_succeed env image_filename image_input Hload Hpos Hall)
      as (_ & Hconsole & _).
    rewrite Hconsole, memory_transfer_figure.
    split; repeat first [apply list_elem_of_here | apply list_elem_of_further].
  - apply duration_exact.
Qed.

Lemma profiling_reports_last_dispatch_witness :
  (cout_value "Kernel execution time [ns]:" (ulong_sub 250 100)
     ∈ console (snd (main (succeeding 256 scenario) "test.pgm")) ∧
   cout_value "Memory transfer:" (ulong_wrap (4 * ulong_sub 250 100))
     ∈ console (snd (main (succeeding 256 scenario) "test.pgm"))) ∧
  (ulong_sub 250 100 = (250 - 100)%Z ∧
   ulong_wrap (4 * ulong_sub 250 100) = (4 * (250 - 100))%Z).
Proof.
  split.
  - apply (proj1 (proj2 (profiling_reports_last_dispatch
                           (succeeding 256 scenario) "test.pgm")) scenario).
    + reflexivity.
    + simpl. lia.
    + apply all_succeed_succeeding.
  - apply (proj2 (proj2 (profiling_reports_last_dispatch
                           (succeeding 256 scenario) "test.pgm"))).
    simpl. lia.
Defined.

(* ===================================================================== *)
(** * The command line *)
(* ===================================================================== *)

Section command_line.
Context (atoi : string → Z) (ListPlatformsDevices : string).

Lemma render_cons it items :
  render (it :: items) = render_item it ++ render items.
Proof. reflexivity. Qed.

Lemma spelt_cons it items : spelt (it :: items) → spelt items.
Proof. intros H s Hs. apply H. by right. Qed.

Ltac is_listed :=
  repeat first [apply list_elem_of_here | apply list_elem_of_further].

Lemma parse_other s rest o out :
  ¬ is_option s →
  parse_loop atoi ListPlatformsDevices (s :: rest) o out =
  parse_loop atoi ListPlatformsDevices rest o out.
Proof.
  intros Hs. unfold is_option in Hs. cbn [parse_loop].
  destruct (decide (s = "-p")) as [->|_]; [exfalso; apply Hs; is_listed|].
  destruct (decide (s = "-d")) as [->|_]; [exfalso; apply Hs; is_listed|].
  destruct (decide (s = "-l")) as [->|_]; [exfalso; apply Hs; is_listed|].
  destruct (decide (s = "-f")) as [->|_]; [exfalso; apply Hs; is_listed|].
  destruct (decide (s = "-h")) as [->|_]; [exfalso; apply Hs; is_listed|].
  by destruct rest.
Qed.

(** Reading a spelt command line, whatever follows it. *)
Lemma parse_render items : ∀ rest o out,
  spelt items →
  parse_loop atoi ListPlatformsDevices (render items ++ rest) o out =
  parse_loop atoi ListPlatformsDevices rest
             (foldl (apply_item atoi) o items)
             (out ++ (items ≫= listing ListPlatformsDevices)).
Proof.
  induction items as [|it items IH]; intros rest o out Hsp.
  - simpl. by rewrite app_nil_r.
  - rewrite render_cons, <- app_assoc.
    pose proof (spelt_cons _ _ Hsp) as Hsp'.
    destruct it as [v|v| |v|s]; cbn [render_item app foldl apply_item].
    + cbn [parse_loop]. rewrite decide_True by done.
      rewrite IH by done. reflexivity.
    + cbn [parse_loop]. rewrite decide_False, decide_True by done.
      rewrite IH by done. reflexivity.
    + cbn [parse_loop].
      rewrite (decide_False (P := "-l" = "-p")) by done.
      rewrite (decide_False (P := "-l" = "-d")) by done.
      rewrite decide_True by done.
      rewrite IH by done. rewrite bind_cons, app_assoc. reflexivity.
    + cbn [parse_loop].
      rewrite (decide_False (P := "-f" = "-p")) by done.
      rewrite (decide_False (P := "-f" = "-d")) by done.
      rewrite (decide_False (P := "-f" = "-l")) by done.
      rewrite decide_True by done.
      rewrite IH by done. reflexivity.
    + rewrite parse_other by (apply Hsp; left).
      rewrite IH by done. reflexivity.
Qed.

(** X1. A spelt command line is read as the options it spells: [-p],
    [-d] and [-f] take the next argument as it is, also when it looks like
    an option; a later option overrides an earlier one; arguments that
    are no options are passed over; each [-l] prints the listing once. *)
Theorem options_parsed items :
  spelt items →
  parse_loop atoi ListPlatformsDevices (render items) defaults [] =
  (Proceed (foldl (apply_item atoi) defaults items),
   items ≫= listing ListPlatformsDevices).
Proof.
  intros Hsp.
  rewrite <- (app_nil_r (render items)), parse_render by done.
  reflexivity.
Qed.

(** X2. An [-h] in the place of an option makes [main] print the usage on
    [cerr] and return 0: the options read so far are dropped, whatever
    follows is not looked at, the bin count is not asked for and nothing
    is dispatched. *)
Theorem help_returns items argv0 rest env :
  spelt items →
  program atoi ListPlatformsDevices (argv0 :: render items ++ "-h" :: rest)
          env =
  mkRun (Some 0%Z) ((items ≫= listing ListPlatformsDevices) ++ print_help) [].
Proof.
  intros Hsp. unfold program. cbn [tail].
  rewrite parse_render by done. cbn [parse_loop].
  rewrite (decide_False (P := "-h" = "-p")) by done.
  rewrite (decide_False (P := "-h" = "-d")) by done.
  rewrite (decide_False (P := "-h" = "-l")) by done.
  rewrite (decide_False (P := "-h" = "-f")) by done.
  rewrite decide_True by done.
  by destruct rest.
Qed.

(** X3. An option that takes a value is passed over when it is the last
    argument. *)
Theorem trailing_option_ignored items flag o out :
  spelt items →
  flag ∈ ["-p"; "-d"; "-f"] →
  parse_loop atoi ListPlatformsDevices (render items ++ [flag]) o out =
  parse_loop atoi ListPlatformsDevices (render items) o out.
Proof.
  intros Hsp Hflag.
  rewrite parse_render by done.
  rewrite <- (app_nil_r (render items)), parse_render by done.
  repeat (apply elem_of_cons in Hflag as [->|Hflag]; [reflexivity|]).
  by apply elem_of_nil in Hflag.
Qed.

Lemma no_file_option items o :
  (∀ v, opt_f v ∉ items) →
  image_filename (foldl (apply_item atoi) o items) = image_filename o.
Proof.
  revert o. induction items as [|it items IH]; intros o Hno; [done|].
  cbn [foldl]. rewrite IH.
  - destruct it; try reflexivity. exfalso. apply (Hno v). left.
  - intros v Hv. apply (Hno v). by right.
Qed.

(** X4. Without an [-f] option the run is that of the [try] block on
    [test.pgm], whatever other arguments are given; the usage text names
    [test.ppm] as the default. *)
Theorem default_image_file items argv0 env :
  spelt items →
  (∀ v, opt_f v ∉ items) →
  program atoi ListPlatformsDevices (argv0 :: render items) env =
  mkRun (returned_after (fst (main env "test.pgm")))
        ((items ≫= listing ListPlatformsDevices)
           ++ console (snd (main env "test.pgm")))
        (dispatched (snd (main env "test.pgm"))) ∧
  cerr "  -f : input image file (default: test.ppm)" ∈ print_help ∧
  cerr "  -f : input image file (default: test.pgm)" ∉ print_help.
Proof.
  intros Hsp Hno. split_and!.
  - unfold program. cbn [tail]. rewrite <- (app_nil_r (render items)), parse_render by done.
    cbn [parse_loop].
    rewrite no_file_option by done. reflexivity.
  - unfold print_help. is_listed.
  - unfold print_help. intros Hin.
    repeat (apply elem_of_cons in Hin as [Hin|Hin]; [discriminate Hin|]).
    by apply elem_of_nil in Hin.
Qed.

End command_line.

Lemma spelt_sample : spelt sample_items.
Proof.
  intros s Hs [Hopt|Hopt]%elem_of_cons; unfold sample_items in Hs.
  - subst s.
    repeat (apply elem_of_cons in Hs as [Hs|Hs]; [discriminate Hs|]).
    by apply elem_of_nil in Hs.
  - repeat (apply elem_of_cons in Hs as [Hs|Hs];
            [first [discriminate Hs | injection Hs as ->]|]);
      [|by apply elem_of_nil in Hs].
    repeat (apply elem_of_cons in Hopt as [Hopt|Hopt]; [discriminate Hopt|]).
    by apply elem_of_nil in Hopt.
Qed.

Lemma options_parsed_witness :
  parse_loop digit "listing" (render sample_items) defaults [] =
  (Proceed (mkOptions 1 2 "a.pgm"), [cout "listing"]).
Proof. apply (options_parsed digit "listing" sample_items spelt_sample). Defined.

Lemma help_returns_witness :
  program digit "listing"
          ("Tutorial 2" :: render sample_items ++ ["-h"; "-f"; "b.pgm"])
          (succeeding 256 scenario) =
  mkRun (Some 0%Z) (cout "listing" :: print_help) [].
Proof.
  apply (help_returns digit "listing" sample_items "Tutorial 2"
                      ["-f"; "b.pgm"] (succeeding 256 scenario) spelt_sample).
Defined.

Lemma trailing_option_ignored_witness :
  parse_loop digit "listing" (render sample_items ++ ["-f"]) defaults [] =
  parse_loop digit "listing" (render sample_items) defaults [].
Proof.
  apply trailing_option_ignored; [exact spelt_sample|].
  do 2 apply list_elem_of_further. apply list_elem_of_here.
Defined.

Lemma default_image_file_witness :
  returned (program digit "listing" ["Tutorial 2"; "image.pgm"; "-l"]
                    (failing build (-11) 256 scenario)) = Some 0%Z.
Proof.
  destruct (default_image_file digit "listing" [other "image.pgm"; opt_l]
              "Tutorial 2" (failing build (-11) 256 scenario))
    as (Hrun & _).
  - intros s [Hs|Hs]%elem_of_cons.
    + injection Hs as ->. intros Hopt.
      repeat (apply elem_of_cons in Hopt as [Hopt|Hopt]; [discriminate Hopt|]).
      by apply elem_of_nil in Hopt.
    + apply elem_of_cons in Hs as [Hs|Hs]; [discriminate Hs|].
      by apply elem_of_nil in Hs.
  - intros v Hv.
    repeat (apply elem_of_cons in Hv as [Hv|Hv]; [discriminate Hv|]).
    by apply elem_of_nil in Hv.
  - change (render [other "image.pgm"; opt_l]) with ["image.pgm"; "-l"] in Hrun.
    rewrite Hrun. vm_compute. reflexivity.
Defined.

(* ===================================================================== *)
(** * What the stages compute together *)
(* ===================================================================== *)

#[local] Transparent stage_int_hist stage_cum_hist stage_norm_hist
  stage_back_project hist_size int_wrap.

Section cumulative_counts.

Lemma count_upto_0 pixels : count_upto 0 pixels = count 0 pixels.
Proof.
  unfold count_upto, count. f_equal. apply list_filter_iff. intros p. lia.
Qed.

Lemma count_upto_S v pixels :
  count_upto (S v) pixels = count_upto v pixels + count (S v) pixels.
Proof.
  unfold count_upto, count. induction pixels as [|p pixels IH]; [done|].
  rewrite !filter_cons. repeat case_decide; simpl; lia.
Qed.

Lemma count_upto_mono v v' pixels :
  v ≤ v' → count_upto v pixels ≤ count_upto v' pixels.
Proof.
  induction 1 as [|v' _ IH]; [done|]. rewrite count_upto_S. lia.
Qed.

Lemma count_upto_le v pixels : count_upto v pixels ≤ length pixels.
Proof. unfold count_upto. apply length_filter. Qed.

Lemma count_upto_all v pixels :
  Forall (λ p, Z.to_nat p ≤ v) pixels → count_upto v pixels = length pixels.
Proof.
  unfold count_upto. induction 1 as [|p pixels Hp _ IH]; [done|].
  rewrite filter_cons, decide_True by done. simpl. by rewrite IH.
Qed.

(** The prefix sums of the counts are the cumulative counts. *)
Lemma psum_counts pixels n v :
  v < n →
  psum ((λ u, Z.of_nat (count u pixels)) <$> seq 0 n) (S v) =
  Z.of_nat (count_upto v pixels).
Proof.
  intros Hv. induction v as [|v IH].
  - rewrite (psum_S _ 0 (Z.of_nat (count 0 pixels))), psum_0, count_upto_0.
    + lia.
    + by rewrite list_lookup_fmap, lookup_seq_lt.
  - rewrite (psum_S _ (S v) (Z.of_nat (count (S v) pixels))).
    + rewrite IH by lia. rewrite count_upto_S. lia.
    + by rewrite list_lookup_fmap, lookup_seq_lt.
Qed.

End cumulative_counts.

Section equalisation.
Context (image_input : CImg) (bin_count : nat) (m : DeviceMemory).
Hypothesis Hwf : CImg_wf image_input.
Hypothesis Hm : created (size image_input) bin_count m.
Hypothesis Hzero : zeroed m.
Hypothesis Hbins : Forall (λ p, Z.to_nat p < bin_count) (data image_input).
Hypothesis HB : 0 < bin_count ≤ size image_input.
Hypothesis HN : (Z.of_nat (size image_input) ≤ INT_MAX)%Z.

Let N := size image_input.
Let pixels := data image_input.
Let counts (n : nat) : list Z := (λ u, Z.of_nat (count u pixels)) <$> seq 0 n.

Lemma counts_frequency : frequency_histogram N (counts bin_count).
Proof.
  destruct Hwf as [Hsize _]. split_and!.
  - apply Forall_fmap, Forall_forall. intros u _. simpl. lia.
  - unfold counts. rewrite sum_counts by done. unfold pixels, N. by rewrite Hsize.
  - done.
Qed.

Lemma take_counts : take bin_count (counts (hist_size bin_count)) = counts bin_count.
Proof.
  unfold counts. rewrite <- fmap_take, take_seq. do 2 f_equal.
  unfold hist_size, sizeof_int. lia.
Qed.

(** The sequential reading of the run: the output holds the equalised
    intensity of every pixel. *)
Lemma equalised_output :
  ∃ m' b, equalised image_input bin_count m = Some (m', b) ∧
    int_histogram_buffer b = counts bin_count ∧
    length (output_buffer b) = N ∧
    ∀ p pixel, pixels !! p = Some pixel →
      output_buffer b !! p = Some (equalised_pixel pixels N bin_count pixel).
Proof.
  pose proof Hwf as [Hsize _].
  pose proof Hm as (Hin & Hout & Hint & Hcum & Hnorm).
  rewrite hist_buffer_ints_eq in Hint, Hcum, Hnorm.
  assert (bin_count ≤ hist_size bin_count) as Hfit
    by (unfold hist_size, sizeof_int; lia).
  set (d := Z.quot (Z.of_nat N) (Z.of_nat bin_count)).
  assert (0 < d)%Z as Hd by (by apply divisor_positive).
  unfold equalised. fold N pixels.
  rewrite (zeroed_replicate _ _ Hzero Hint).
  rewrite counted_zeroed; first last.
  { unfold pixels. rewrite Hsize. exact HN. }
  { eapply Forall_impl; [exact Hbins|]. simpl. intros p Hp. lia. }
  cbn [mbind option_bind]. fold (counts (hist_size bin_count)).
  set (H := counts (hist_size bin_count)).
  assert (length H = hist_size bin_count) as HlenH
    by (unfold H, counts; by rewrite length_fmap, length_seq).
  set (C := scan_groups bin_count (hist_size bin_count / bin_count) H).
  assert (length C = hist_size bin_count) as HlenC
    by (by apply length_scan_groups_cover).
  assert (∀ v, v < bin_count →
               C !! v = Some (Z.of_nat (count_upto v pixels))) as HC.
  { intros v Hv. rewrite <- (lookup_take_lt C bin_count v Hv).
    unfold C. rewrite first_group_scan by (done || lia).
    unfold H. rewrite take_counts.
    rewrite (hs_scan_frequency N) by
      (apply counts_frequency || (unfold counts;
                                  by rewrite length_fmap, length_seq)).
    f_equal. by apply psum_counts. }
  set (g := λ id, clamp 0 255 (int_wrap (Z.quot (C !!! id) d))).
  rewrite (written_Some _ _ _ g); first last.
  { intros i Hi. unfold normalised, g.
    destruct (lookup_lt_is_Some_2 C i) as [x Hx]; [lia|].
    rewrite Hx, (list_lookup_total_correct _ _ _ Hx). simpl.
    rewrite !int_wrap_id by (unfold is_int, INT_MIN, INT_MAX in *; lia).
    rewrite int_div_nonneg by (unfold INT_MAX in *; lia). simpl.
    fold d. unfold int_div. rewrite decide_False by lia. done. }
  cbn [mbind option_bind].
  rewrite take_0, app_nil_l, drop_ge, app_nil_r by (simpl; lia).
  set (T := g <$> seq 0 (hist_size bin_count)).
  assert (∀ v, v < bin_count →
            T !! v = Some (clamp 0 255
                             (Z.quot (Z.of_nat (count_upto v pixels)) d)))
    as HT.
  { intros v Hv. unfold T. rewrite list_lookup_fmap, lookup_seq_lt by lia.
    simpl. unfold g. rewrite (list_lookup_total_correct _ _ _ (HC v Hv)).
    do 2 f_equal. apply int_wrap_id.
    pose proof (count_upto_le v pixels) as Hle. unfold pixels in Hle at 2.
    rewrite Hsize in Hle. fold N in Hle.
    pose proof (Z.quot_pos (Z.of_nat (count_upto v pixels)) d).
    pose proof (Z.quot_le_upper_bound (Z.of_nat (count_upto v pixels)) d
                  (Z.of_nat (count_upto v pixels))).
    unfold is_int, INT_MIN, INT_MAX in *. fold N in HN. nia. }
  rewrite (written_Some _ _ _
             (λ id, equalised_pixel pixels N bin_count (pixels !!! id)));
    first last.
  { intros i Hi. unfold projected.
    destruct (lookup_lt_is_Some_2 pixels i) as [pixel Hp];
      [unfold pixels; rewrite Hsize; exact Hi|].
    rewrite Hp, (list_lookup_total_correct _ _ _ Hp). simpl.
    pose proof (Forall_lookup_1 _ _ _ _ Hbins Hp) as Hlt. simpl in Hlt.
    rewrite (HT _ Hlt). simpl. f_equal.
    unfold equalised_pixel. fold d. apply uchar_wrap_id, clamp_range. }
  cbn [mbind option_bind]. eexists _, _. split; [reflexivity|].
  cbn [int_histogram_buffer output_buffer].
  rewrite take_0, app_nil_l, drop_ge, app_nil_r by (simpl; lia).
  rewrite (take_ge _ N) by (by rewrite length_fmap, length_seq).
  split_and!.
  - unfold H. apply take_counts.
  - by rewrite length_fmap, length_seq.
  - intros p pixel Hp. pose proof (lookup_lt_Some _ _ _ Hp) as Hlt.
    unfold pixels in Hlt. rewrite Hsize in Hlt.
    rewrite list_lookup_fmap, lookup_seq_lt by done. simpl.
    by rewrite (list_lookup_total_correct _ _ _ Hp).
Qed.

End equalisation.

Lemma equalised_pixel_mono pixels N bin_count x y :
  0 < bin_count ≤ N → (0 ≤ x ≤ y)%Z →
  (equalised_pixel pixels N bin_count x
   ≤ equalised_pixel pixels N bin_count y)%Z.
Proof.
  intros HB Hxy. unfold equalised_pixel. apply clamp_mono.
  apply Z.quot_le_mono; [by apply divisor_positive|].
  apply inj_le, count_upto_mono. lia.
Qed.

(** X5. With the bins at zero when the run starts, every pixel intensity
    below the bin count [B] and [0 < B <= N <= INT_MAX], the four stages
    together equalise the image: output pixel [p] is the number of pixels
    whose intensity is at most that of input pixel [p], divided by
    [N / B] (both divisions truncating) and clamped to [0, 255]. *)
Theorem pipeline_equalises image_input bin_count ex m :
  CImg_wf image_input →
  created (size image_input) bin_count m →
  execution_of (size image_input) bin_count ex →
  zeroed m →
  Forall (λ p, Z.to_nat p < bin_count) (data image_input) →
  0 < bin_count ≤ size image_input →
  (Z.of_nat (size image_input) ≤ INT_MAX)%Z →
  ∃ m' b,
    pipeline image_input bin_count ex m = Some (m', b) ∧
    length (output_buffer b) = size image_input ∧
    ∀ p pixel, data image_input !! p = Some pixel →
      output_buffer b !! p =
      Some (equalised_pixel (data image_input) (size image_input)
                            bin_count pixel).
Proof.
  intros Hwf Hm Hex Hzero Hbins HB HN. rewrite pipeline_eq by done.
  destruct (equalised_output image_input bin_count m)
    as (m' & b & Heq & _ & Hlen & Hout); try done.
  by exists m', b.
Qed.

Lemma pipeline_equalises_witness :
  ∃ m' b,
    pipeline scenario 4 (reversed 8 4 7) (fresh 8 4 7) = Some (m', b) ∧
    length (output_buffer b) = size scenario ∧
    ∀ p pixel, data scenario !! p = Some pixel →
      output_buffer b !! p =
      Some (equalised_pixel (data scenario) (size scenario) 4 pixel).
Proof.
  apply pipeline_equalises.
  - split; [reflexivity|]. simpl. unfold is_uchar. repeat constructor; lia.
  - apply (created_fresh 8 4).
  - apply (execution_reversed 8 4).
  - unfold zeroed. simpl. repeat constructor.
  - simpl. repeat constructor.
  - vm_compute. lia.
  - vm_compute. discriminate.
Defined.

(** X6. Under the same conditions the run keeps the order of the
    intensities: a pixel that is not brighter than another in the input is
    not brighter than it in the output. *)
Theorem output_order_preserved image_input bin_count ex m :
  CImg_wf image_input →
  created (size image_input) bin_count m →
  execution_of (size image_input) bin_count ex →
  zeroed m →
  Forall (λ p, Z.to_nat p < bin_count) (data image_input) →
  0 < bin_count ≤ size image_input →
  (Z.of_nat (size image_input) ≤ INT_MAX)%Z →
  ∃ m' b,
    pipeline image_input bin_count ex m = Some (m', b) ∧
    ∀ p q x y x' y',
      data image_input !! p = Some x → data image_input !! q = Some y →
      output_buffer b !! p = Some x' → output_buffer b !! q = Some y' →
      (x ≤ y)%Z → (x' ≤ y')%Z.
Proof.
  intros Hwf Hm Hex Hzero Hbins HB HN.
  rewrite pipeline_eq by done.
  destruct (equalised_output image_input bin_count m)
    as (m' & b & Heq & _ & _ & Hout); try done.
  exists m', b. split; [exact Heq|].
  intros p q x y x' y' Hx Hy Hx' Hy' Hxy.
  rewrite (Hout _ _ Hx) in Hx'. rewrite (Hout _ _ Hy) in Hy'.
  injection Hx' as <-. injection Hy' as <-.
  apply equalised_pixel_mono; [done|].
  destruct Hwf as [_ Hpix].
  pose proof (Forall_lookup_1 _ _ _ _ Hpix Hx) as Hux.
  unfold is_uchar in Hux. lia.
Qed.

Lemma output_order_preserved_witness :
  ∃ m' b,
    pipeline scenario 4 (reversed 8 4 7) (fresh 8 4 7) = Some (m', b) ∧
    ∀ p q x y x' y',
      data scenario !! p = Some x → data scenario !! q = Some y →
      output_buffer b !! p = Some x' → output_buffer b !! q = Some y' →
      (x ≤ y)%Z → (x' ≤ y')%Z.
Proof.
  apply output_order_preserved.
  - split; [reflexivity|]. simpl. unfold is_uchar. repeat constructor; lia.
  - apply (created_fresh 8 4).
  - apply (execution_reversed 8 4).
  - unfold zeroed. simpl. repeat constructor.
  - simpl. repeat constructor.
  - vm_compute. lia.
  - vm_compute. discriminate.
Defined.

(** X7. Under the same conditions an image whose pixels all have the same
    intensity [c] comes out uniform with every pixel at
    [clamp(N / (N / B))], whatever [c] is; when [B] divides [N] that is
    [min(B, 255)]. *)
Theorem uniform_image_saturates image_input bin_count ex m c :
  CImg_wf image_input →
  created (size image_input) bin_count m →
  execution_of (size image_input) bin_count ex →
  zeroed m →
  Forall (λ p, p = c) (data image_input) →
  Z.to_nat c < bin_count →
  0 < bin_count ≤ size image_input →
  (Z.of_nat (size image_input) ≤ INT_MAX)%Z →
  let N := Z.of_nat (size image_input) in
  let B := Z.of_nat bin_count in
  ∃ m' b,
    pipeline image_input bin_count ex m = Some (m', b) ∧
    output_buffer b =
      replicate (size image_input) (clamp 0 255 (Z.quot N (Z.quot N B))) ∧
    ((bin_count | size image_input) →
     clamp 0 255 (Z.quot N (Z.quot N B)) = Z.min 255 B).
Proof.
  intros Hwf Hm Hex Hzero Hsame Hc HB HN N B.
  assert (Forall (λ p, Z.to_nat p < bin_count) (data image_input)) as Hbins.
  { eapply Forall_impl; [exact Hsame|]. by intros p ->. }
  rewrite pipeline_eq by done.
  destruct (equalised_output image_input bin_count m)
    as (m' & b & Heq & _ & Hlen & Hout); try done.
  exists m', b. split_and!; [done| |].
  - apply list_eq. intros p. destruct Hwf as [Hsize _].
    destruct (decide (p < size image_input)) as [Hp|Hp].
    + rewrite lookup_replicate_2 by done.
      destruct (lookup_lt_is_Some_2 (data image_input) p) as [pixel Hpx];
        [by rewrite Hsize|].
      rewrite (Hout _ _ Hpx). f_equal. unfold equalised_pixel.
      rewrite count_upto_all, Hsize; [done|].
      pose proof (Forall_lookup_1 _ _ _ _ Hsame Hpx) as Hpc. simpl in Hpc.
      subst pixel. eapply Forall_impl; [exact Hsame|]. by intros q ->.
    + rewrite lookup_ge_None_2 by lia.
      symmetry. apply lookup_replicate_None. lia.
  - intros [k Hk]. unfold N, B. rewrite Hk, Nat2Z.inj_mul.
    assert (0 < k) by nia.
    rewrite Z.quot_mul by lia. rewrite Z.mul_comm, Z.quot_mul by lia.
    unfold clamp. lia.
Qed.

Lemma uniform_image_saturates_witness :
  ∃ m' b,
    pipeline (uniform 32 16 0) 256 (in_order 512 256 7) (fresh 512 256 7)
      = Some (m', b) ∧
    output_buffer b =
      replicate (size (uniform 32 16 0))
                (clamp 0 255 (Z.quot 512 (Z.quot 512 256))) ∧
    ((256 | size (uniform 32 16 0)) →
     clamp 0 255 (Z.quot 512 (Z.quot 512 256)) = Z.min 255 256).
Proof.
  apply (uniform_image_saturates (uniform 32 16 0) 256 (in_order 512 256 7)
                                 (fresh 512 256 7) 0).
  - split; [reflexivity|]. unfold uniform. cbn [data].
    apply Forall_replicate. unfold is_uchar. lia.
  - apply (created_fresh 512 256).
  - apply (execution_in_order 512 256).
  - unfold zeroed, fresh. cbn [int_histogram]. by apply Forall_replicate.
  - unfold uniform. cbn [data]. by apply Forall_replicate.
  - simpl. lia.
  - change (size (uniform 32 16 0)) with 512. lia.
  - change (size (uniform 32 16 0)) with 512. unfold INT_MAX. lia.
Defined.

(* ===================================================================== *)
(** * When a run stays inside its buffers *)
(* ===================================================================== *)

Lemma normalised_defined C (N bin_count : nat) i x :
  C !! i = Some x →
  0 < bin_count →
  (Z.of_nat N ≤ INT_MAX)%Z → (Z.of_nat bin_count ≤ INT_MAX)%Z →
  is_Some (normalised C (int_wrap (Z.of_nat N)) (int_wrap (Z.of_nat bin_count)) i)
  ↔ bin_count ≤ N.
Proof.
  intros Hx HB HN HBmax. unfold normalised. rewrite Hx. simpl.
  rewrite !int_wrap_id by (unfold is_int, INT_MIN, INT_MAX in *; lia).
  rewrite int_div_nonneg by (unfold INT_MAX in *; lia). simpl.
  unfold int_div. split.
  - intros Hsome. destruct (decide (bin_count ≤ N)) as [|Hlt]; [done|].
    rewrite Z.quot_small in Hsome by lia.
    rewrite decide_True in Hsome by done. simpl in Hsome.
    by destruct Hsome.
  - intros Hle. pose proof (divisor_positive N bin_count ltac:(lia)).
    rewrite decide_False by lia. simpl. eauto.
Qed.

(** X8. A run of the four stages stays inside its buffers and divides by
    no zero exactly when every pixel intensity is below the number of
    ints of the histogram buffers, four times the bin count [B], and [B]
    is 0 or at most the pixel count. *)
Theorem pipeline_defined image_input bin_count ex m :
  CImg_wf image_input →
  created (size image_input) bin_count m →
  execution_of (size image_input) bin_count ex →
  (Z.of_nat (size image_input) ≤ INT_MAX)%Z →
  (Z.of_nat bin_count ≤ INT_MAX)%Z →
  is_Some (pipeline image_input bin_count ex m) ↔
  Forall (λ p, Z.to_nat p < 4 * bin_count) (data image_input) ∧
  (bin_count = 0 ∨ bin_count ≤ size image_input).
Proof.
  intros Hwf Hm Hex HN HBmax. rewrite pipeline_eq by done.
  pose proof Hwf as [Hsize _].
  pose proof Hm as (Hin & Hout & Hint & Hcum & Hnorm).
  rewrite hist_buffer_ints_eq in Hint, Hcum, Hnorm.
  assert (hist_size bin_count = 4 * bin_count) as H4
    by (unfold hist_size, sizeof_int; lia).
  rewrite <- H4. unfold equalised, counted. rewrite Hint.
  destruct (decide (Forall (λ p, Z.to_nat p < hist_size bin_count)
                           (data image_input))) as [Hbins|Hbins];
    [|split; [by intros [? ?]|tauto]].
  cbn [mbind option_bind].
  set (H := imap _ (int_histogram m)).
  assert (length H = hist_size bin_count) as HlenH
    by (unfold H; by rewrite length_imap).
  set (C := scan_groups bin_count (hist_size bin_count / bin_count) H).
  assert (length C = hist_size bin_count) as HlenC
    by (by apply length_scan_groups_cover).
  set (f := normalised C _ _).
  destruct (decide (bin_count = 0 ∨ bin_count ≤ size image_input))
    as [Hok|Hbad].
  - assert (written 0 (hist_size bin_count) f (norm_histogram m) =
            Some ((λ i, default 0%Z (f i)) <$> seq 0 (hist_size bin_count)))
      as ->.
    { unfold written. rewrite decide_True.
      - by rewrite take_0, app_nil_l, drop_ge, app_nil_r by (simpl; lia).
      - apply Forall_forall. intros i Hi%elem_of_seq.
        destruct (lookup_lt_is_Some_2 C i) as [x Hx]; [lia|].
        apply (normalised_defined _ _ _ _ _ Hx); lia. }
    cbn [mbind option_bind]. unfold written. rewrite decide_True.
    + cbn [mbind option_bind]. split; [tauto|eauto].
    + apply Forall_forall. intros i Hi%elem_of_seq. unfold projected.
      destruct (lookup_lt_is_Some_2 (data image_input) i) as [p Hp];
        [rewrite Hsize; lia|].
      rewrite Hp. cbn [mbind option_bind].
      pose proof (Forall_lookup_1 _ _ _ _ Hbins Hp) as Hlt. simpl in Hlt.
      destruct (lookup_lt_is_Some_2
                  ((λ i0, default 0%Z (f i0))
                     <$> seq 0 (hist_size bin_count)) (Z.to_nat p))
        as [v Hv]; [rewrite length_fmap, length_seq; lia|].
      rewrite Hv. cbn [mbind option_bind]. eauto.
  - assert (written 0 (hist_size bin_count) f (norm_histogram m) = None)
      as ->.
    { unfold written. rewrite decide_False; [done|].
      intros Hall. apply Hbad. right.
      destruct (lookup_lt_is_Some_2 C 0) as [x Hx]; [lia|].
      apply (normalised_defined C _ _ 0 x Hx); [lia|done|done|].
      rewrite Forall_forall in Hall. apply Hall, elem_of_seq. lia. }
    split; [by intros [? ?]|tauto].
Qed.

Lemma pipeline_defined_witness :
  is_Some (pipeline scenario 4 (reversed 8 4 7) (fresh 8 4 7)) ↔
  Forall (λ p, Z.to_nat p < 4 * 4) (data scenario) ∧
  (4 = 0 ∨ 4 ≤ size scenario).
Proof.
  apply pipeline_defined.
  - split; [reflexivity|]. simpl. unfold is_uchar. repeat constructor; lia.
  - apply (created_fresh 8 4).
  - apply (execution_reversed 8 4).
  - vm_compute. discriminate.
  - vm_compute. discriminate.
Defined.

(** X9. The scan is dispatched over [cum_hist_size] work-items, four
    times the bin count [B], in groups of [B]. For every bin count the
    stage stays inside its buffers, and the [B] values read back are the
    scan of the first [B] bins alone, whatever the other entries of the
    histogram buffer hold; no other buffer is touched. *)
Theorem cum_hist_over_dispatch image_input bin_count ex m :
  created (size image_input) bin_count m →
  execution_of (size image_input) bin_count ex →
  ∃ m',
    stage_cum_hist bin_count ex m =
      Some (m', hs_scan (take bin_count (int_histogram m))) ∧
    dev_image_input m' = dev_image_input m ∧
    dev_image_output m' = dev_image_output m ∧
    int_histogram m' = int_histogram m ∧
    norm_histogram m' = norm_histogram m ∧
    length (cum_histogram m') = length (cum_histogram m).
Proof.
  intros Hm Hex. rewrite (stage_cum_hist_eq image_input) by done.
  destruct Hm as (_ & _ & Hint & Hcum & _).
  rewrite hist_buffer_ints_eq in Hint, Hcum.
  assert (take bin_count
            (scan_groups bin_count (hist_size bin_count / bin_count)
               (int_histogram m)) =
          hs_scan (take bin_count (int_histogram m))) as ->.
  { destruct bin_count as [|b]; [done|]. apply first_group_scan; [lia|done]. }
  eexists. split_and!; try reflexivity.
  cbn [cum_histogram]. by rewrite length_scan_groups_cover, Hcum.
Qed.

Lemma cum_hist_over_dispatch_witness :
  ∃ m',
    stage_cum_hist 4 (reversed 8 4 7)
      (at_stage scenario [2; 2; 2; 2; 9; 9; 9]%Z [] [] (fresh 8 4 7)) =
      Some (m', hs_scan [2; 2; 2; 2]%Z) ∧
    dev_image_input m' = data scenario ∧
    dev_image_output m' = replicate 8 7%Z ∧
    int_histogram m' =
      prefixed [2; 2; 2; 2; 9; 9; 9]%Z (replicate (hist_buffer_ints 4) 0%Z) ∧
    norm_histogram m' = prefixed [] (replicate (hist_buffer_ints 4) 7%Z) ∧
    length (cum_histogram m') =
      length (prefixed [] (replicate (hist_buffer_ints 4) 7%Z)).
Proof.
  apply (cum_hist_over_dispatch scenario 4 (reversed 8 4 7)
           (at_stage scenario [2; 2; 2; 2; 9; 9; 9]%Z [] [] (fresh 8 4 7))).
  - vm_compute. by split_and!.
  - apply (execution_reversed 8 4).
Defined.

(* ===================================================================== *)
(** * The shape of every run of [main] *)
(* ===================================================================== *)

#[local] Opaque stage_int_hist stage_cum_hist stage_norm_hist
  stage_back_project hist_size int_wrap.

Lemma first_failure_skip env c l :
  status env c = CL_SUCCESS →
  head (filter (λ c, status env c ≠ CL_SUCCESS) (c :: l)) =
  head (filter (λ c, status env c ≠ CL_SUCCESS) l).
Proof. intros H. by rewrite filter_cons_False by (intros Hn; exact (Hn H)). Qed.

Lemma first_failure_here env c l :
  status env c ≠ CL_SUCCESS →
  head (filter (λ c, status env c ≠ CL_SUCCESS) (c :: l)) = Some c.
Proof. intros H. by rewrite filter_cons_True. Qed.

Ltac first_failing :=
  unfold first_failure, calls;
  repeat (rewrite first_failure_skip by assumption).

Ltac failure_leaf :=
  intros [= <- <-]; split_and!;
  [ intros ? Hin; exfalso; cbn in Hin; no_window Hin
  | intros ? [= <-]; by eexists
  | intros ? ? ? ? ?; first_failing;
    rewrite first_failure_here by assumption;
    intros [= <-]; split; reflexivity ].

(** What every run of [main] satisfies: the output window is reached by
    the path of success alone, the dispatches follow the order of the
    source, and the first failing call is the one reported. *)
Lemma run_shape env image_filename o w :
  main env image_filename = (o, w) →
  (∀ image, window "output" image ∈ console w →
     o = Finished ∧
     Forall (λ c, status env c = CL_SUCCESS) calls ∧
     display env "output" = None ∧
     ∃ image_input,
       load env image_filename = inr image_input ∧
       (0 ≤ cin env)%Z ∧
       image = equalised_image image_input (Z.to_nat (cin env))
                 (execution env) (memory env)) ∧
  (∀ image_input,
     load env image_filename = inr image_input →
     dispatched w `prefix_of`
       dispatches image_input (Z.to_nat (cin env))) ∧
  (∀ image_input c,
     load env image_filename = inr image_input →
     display env "input" = None →
     (0 ≤ cin env)%Z →
     first_failure env = Some c →
     o = Caught (cl_Error (what_of c) (status env c)) ∧
     last (console w) =
       Some (cerr ("ERROR: " +:+ what_of c +:+ ", "
                   +:+ getErrorString env (status env c)))).
Proof.
  start_run env image_filename.
  - intros [= <- <-]. split_and!.
    + intros ? Hin. exfalso. cbn in Hin. no_window Hin.
    + intros ? [=].
    + intros ? ? [=].
  - intros [= <- <-]. split_and!.
    + intros ? Hin. exfalso. cbn in Hin. no_window Hin.
    + intros ? [= <-]. by eexists.
    + intros ? ? _ [=].
  - intros [= <- <-]. split_and!.
    + intros ? Hin. exfalso. cbn in Hin. no_window Hin.
    + intros ? [= <-]. by eexists.
    + intros; lia.
  - steps failure_leaf.
    destruct (display env "output") as [what|] eqn:Houtput; cbn;
      intros [= <- <-]; split_and!.
    + intros ? Hin. exfalso. cbn in Hin. no_window Hin.
    + intros ? [= <-]. by eexists [].
    + intros ? ? _ _ _. first_failing. intros [=].
    + intros image Hin. cbn in Hin.
      split_and!; [reflexivity| |reflexivity|].
      { unfold calls. repeat (constructor; [assumption|]). constructor. }
      exists image_input. split_and!; [reflexivity|lia|].
      rewrite <- device_path.
      repeat (apply elem_of_cons in Hin as [Hin|Hin];
              [first [ discriminate Hin
                     | injection Hin; discriminate
                     | injection Hin as Hin; exact Hin ]
              |]).
      by apply elem_of_nil in Hin.
    + intros ? [= <-]. by eexists [].
    + intros ? ? _ _ _. first_failing. intros [=].
Qed.

(** X10. In every run the kernels are dispatched in the order of the
    source, each with its global size, local size and scalar arguments:
    what was dispatched when the run ended is an initial part of
    [int_hist], [cum_hist], [norm_hist], [back_project], so that no
    kernel runs unless the ones before it were dispatched; when the image
    does not load nothing is dispatched. *)
Theorem kernels_dispatched_in_order env image_filename :
  match load env image_filename with
  | inr image_input =>
      dispatched (snd (main env image_filename)) `prefix_of`
        dispatches image_input (Z.to_nat (cin env))
  | inl _ => dispatched (snd (main env image_filename)) = []
  end.
Proof.
  destruct (load env image_filename) as [what|image_input] eqn:Hload.
  - unfold_run. rewrite Hload. reflexivity.
  - destruct (main env image_filename) as [o w] eqn:Hmain.
    by apply (run_shape env image_filename o w Hmain).
Qed.

(** X11. The output window is shown only by a run in which the image
    loaded, the bin count is not negative and every call succeeded; the
    run then finishes, and the image shown is the one the four stages
    leave, or none when a stage left the device memory undefined. *)
Theorem output_window_after_success env image_filename image :
  window "output" image ∈ console (snd (main env image_filename)) →
  fst (main env image_filename) = Finished ∧
  (∀ c, c ∈ calls → status env c = CL_SUCCESS) ∧
  ∃ image_input,
    load env image_filename = inr image_input ∧
    (0 ≤ cin env)%Z ∧
    image = equalised_image image_input (Z.to_nat (cin env))
              (execution env) (memory env).
Proof.
  destruct (main env image_filename) as [o w] eqn:Hmain. intros Hin.
  destruct (proj1 (run_shape env image_filename o w Hmain) image Hin)
    as (Ho & Hall & _ & Himage).
  split_and!; [exact Ho| |exact Himage].
  by apply Forall_forall.
Qed.

Lemma output_window_after_success_witness :
  fst (main (succeeding 4 scenario) "test.pgm") = Finished ∧
  (∀ c, c ∈ calls → status (succeeding 4 scenario) c = CL_SUCCESS) ∧
  ∃ image_input,
    load (succeeding 4 scenario) "test.pgm" = inr image_input ∧
    (0 ≤ cin (succeeding 4 scenario))%Z ∧
    equalised_image scenario 4 (in_order 8 4 7) (fresh 8 4 7) =
    equalised_image image_input (Z.to_nat (cin (succeeding 4 scenario)))
      (execution (succeeding 4 scenario)) (memory (succeeding 4 scenario)).
Proof.
  apply (output_window_after_success (succeeding 4 scenario) "test.pgm"
           (equalised_image scenario 4 (in_order 8 4 7) (fresh 8 4 7))).
  destruct (run_all_succeed (succeeding 4 scenario) "test.pgm" scenario
              eq_refl) as (_ & Hconsole & _);
    [simpl; lia|by split_and!|].
  rewrite Hconsole. do 6 apply list_elem_of_further. apply list_elem_of_here.
Defined.


